(** * SMURFS: frequency extraction from light curves

    A shallow embedding of [smurfs/timeseries/timerseries.py].

    Conventions of the embedding.
    - A NumPy float is a real number ([R]); comparisons are the exact order
      of [R].  Rounding error is outside the model.  Where the source goes on
      with the result of a division by zero or of the mean of an empty
      array, the value is an [xfloat], which has the infinities and NaN.
    - A Python [int] used as an index is a [Z]; indexing and slicing of a
      one-dimensional array follow Python's rules for negative and
      out-of-range positions.
    - A raised exception is a value of the result type [res]; a [while] loop
      is a function with fuel, and [Diverge] is the result of running out of
      it.
    - The SciPy optimiser and the astropy periodogram are external: they are
      parameters of the functions that call them. *)

From Stdlib Require Import Reals.Reals Lra Lia ZArith List Bool.
Import ListNotations.

Open Scope Z_scope.
Open Scope R_scope.

(** ** Results of computations that may raise *)

(** Where a [ValueError] comes from. *)
Inductive why : Type :=
| FminAboveFmax     (* "f_min has to be smaller than f_max!" *)
| EmptySequence     (* [max] or [argmax] of an empty sequence *)
| NanToInt          (* [int] of a NaN *)
| SizeOfLists       (* "Size of all result lists must be equal!" *)
| ShapeMismatch.    (* NumPy: array dimensions do not match *)

Inductive exn : Type :=
| ValueError (w : why)
| IndexError
| OverflowError
| RuntimeError
| KeyError
| UnboundLocalError.

Inductive res (A : Type) : Type :=
| Ok (a : A)
| Raise (e : exn)
| Diverge.

Arguments Ok {A} a.
Arguments Raise {A} e.
Arguments Diverge {A}.

Definition bind {A B : Type} (m : res A) (k : A -> res B) : res B :=
  match m with
  | Ok a => k a
  | Raise e => Raise e
  | Diverge => Diverge
  end.

Notation "x <- m ;; k" := (bind m (fun x => k))
  (at level 61, m at next level, right associativity).
Notation "' pat <- m ;; k" := (bind m (fun x => match x with pat => k end))
  (at level 61, pat pattern, m at next level, right associativity).

(** ** Floats that need not be finite

    Used where the source divides by a value that can be zero or takes the
    mean of an array that can be empty, and goes on with the result. *)

Inductive xfloat : Type :=
| Fin (r : R)
| PInf
| NInf
| NaN.

(** ** Boolean comparisons on reals *)

Definition Rltb (x y : R) : bool := if Rlt_dec x y then true else false.
Definition Reqb (x y : R) : bool := if Req_dec_T x y then true else false.

(** [a > c] for a float [a] and a finite [c]: false on NaN. *)
Definition xgtb (a : xfloat) (c : R) : bool :=
  match a with
  | Fin r => Rltb c r
  | PInf => true
  | NInf | NaN => false
  end.

(** [a < c] for a float [a] and a finite [c]: false on NaN. *)
Definition xltb (a : xfloat) (c : R) : bool :=
  match a with
  | Fin r => Rltb r c
  | NInf => true
  | PInf | NaN => false
  end.

(** [a / b] on NumPy floats, [a] finite. *)
Definition xdiv (a : R) (b : xfloat) : xfloat :=
  match b with
  | Fin d =>
      if Reqb d 0 then
        (if Rltb 0 a then PInf else if Rltb a 0 then NInf else NaN)
      else Fin (a / d)
  | PInf | NInf => Fin 0
  | NaN => NaN
  end.

(** [int(r)]: truncation towards zero. *)
Definition trunc (r : R) : Z :=
  if Rle_dec 0 r then Int_part r else (- Int_part (- r))%Z.

(** ** One-dimensional arrays *)

Module Py.

(** [len(a)] as a Python integer. *)
Definition len {A : Type} (a : list A) : Z := Z.of_nat (length a).

(** [a[k]]: a negative position counts from the end, a position outside
    the array raises [IndexError]. *)
Definition getitem {A : Type} (a : list A) (k : Z) : res A :=
  let k' := if (k <? 0)%Z then (k + len a)%Z else k in
  if (k' <? 0)%Z then Raise IndexError
  else match nth_error a (Z.to_nat k') with
       | Some v => Ok v
       | None => Raise IndexError
       end.

(** The position a slice bound denotes: a negative bound counts from the
    end, and the result is clamped to [0 .. len]. *)
Definition clamp (n k : Z) : Z :=
  let k' := if (k <? 0)%Z then (k + n)%Z else k in
  Z.max 0 (Z.min n k').

(** [a[start:stop]]; never raises. *)
Definition slice {A : Type} (a : list A) (start stop : Z) : list A :=
  let lo := clamp (len a) start in
  let hi := clamp (len a) stop in
  firstn (Z.to_nat (hi - lo)) (skipn (Z.to_nat lo) a).

(** [a[start:]]. *)
Definition slice_from {A : Type} (a : list A) (start : Z) : list A :=
  skipn (Z.to_nat (clamp (len a) start)) a.

(** [a[mask]] for a boolean mask of the same length. *)
Fixpoint mask {A : Type} (a : list A) (m : list bool) : list A :=
  match a, m with
  | v :: a', b :: m' => if b then v :: mask a' m' else mask a' m'
  | _, _ => []
  end.

End Py.

(** ** NumPy reductions *)

Module Np.

Definition sum (a : list R) : R := fold_right Rplus 0 a.

(** [np.mean]: the mean of an empty array is NaN. *)
Definition mean (a : list R) : xfloat :=
  match a with
  | [] => NaN
  | _ => Fin (sum a / INR (length a))
  end.

(** [np.diff]. *)
Fixpoint diff (a : list R) : list R :=
  match a with
  | u :: ((v :: _) as a') => (v - u) :: diff a'
  | _ => []
  end.

(** [max(a)] of the builtin: raises on an empty sequence. *)
Definition max (a : list R) : res R :=
  match a with
  | [] => Raise (ValueError EmptySequence)
  | v :: a' => Ok (fold_left Rmax a' v)
  end.

(** [a.std()]: the population standard deviation of the flattened
    array. *)
Definition std (a : list R) : xfloat :=
  match mean a with
  | Fin m =>
      Fin (sqrt (sum (map (fun v => (v - m) * (v - m)) a) / INR (length a)))
  | _ => NaN
  end.

(** The finite entries of an array, if all are finite. *)
Fixpoint finite (a : list xfloat) : option (list R) :=
  match a with
  | [] => Some []
  | Fin r :: a' => option_map (cons r) (finite a')
  | _ :: _ => None
  end.

(** [std] of an array that may hold non-finite entries: one such entry
    makes the result NaN. *)
Definition xstd (a : list xfloat) : xfloat :=
  match finite a with
  | Some l => std l
  | None => NaN
  end.

End Np.

(** ** Local minima next to the peak *)

(** Position of the first entry within [tol] of the maximum [m]. *)
Fixpoint first_within (tol m : R) (y : list R) (k : Z) : option Z :=
  match y with
  | [] => None
  | v :: y' => if Rltb (Rabs (v - m)) tol then Some k
               else first_within tol m y' (k + 1)%Z
  end.

Definition checkMinima (yData : list R) (counter : Z) : res bool :=
  c <- Py.getitem yData counter ;;
  n <- Py.getitem yData (counter + 1)%Z ;;
  if Rltb c n then
    p <- Py.getitem yData (counter - 1)%Z ;;
    Ok (Rltb c p)
  else Ok false.

(** One round of the [while] loop of [findNextMinimas]: the new values of
    [lowerMinima] and [upperMinima]. *)
Definition minimas_step (yData : list R) (index counter lowerMinima upperMinima : Z)
  : res (Z * Z) :=
  let negCounter := (index - counter)%Z in
  let posCounter := (index + counter)%Z in
  lowerMinima' <-
    (if (negCounter - 1 <? 0)%Z then Ok negCounter
     else b <- checkMinima yData negCounter ;;
          Ok (if b then negCounter else lowerMinima)) ;;
  upperMinima' <-
    (if (posCounter + 1 >=? Py.len yData)%Z then Ok posCounter
     else b <- checkMinima yData posCounter ;;
          Ok (if b then posCounter else upperMinima)) ;;
  Ok (lowerMinima', upperMinima').

Fixpoint minimas_loop (fuel : nat) (yData : list R)
  (index counter lowerMinima upperMinima : Z) : res (Z * Z) :=
  match fuel with
  | O => Diverge
  | S fuel' =>
      '(lowerMinima', upperMinima') <-
        minimas_step yData index counter lowerMinima upperMinima ;;
      if negb (lowerMinima' =? -1)%Z && negb (upperMinima' =? -1)%Z
      then Ok (lowerMinima', upperMinima')
      else minimas_loop fuel' yData index (counter + 1)%Z lowerMinima' upperMinima'
  end.

(** [int(np.where(abs(yData - max(yData)) < 10 ** -6)[0][0])]. *)
Definition peakIndex (yData : list R) : res Z :=
  m <- Np.max yData ;;
  match first_within (/ 1000000) m yData 0%Z with
  | Some k => Ok k
  | None => Raise IndexError
  end.

Definition findNextMinimas_fuel (fuel : nat) (yData : list R) : res (Z * Z) :=
  index <- peakIndex yData ;;
  minimas_loop fuel yData index 1%Z (-1)%Z (-1)%Z.

(** The loop needs at most [len(yData) + 2] rounds (lemma
    [minimas_loop_terminates]), so this fuel never runs out. *)
Definition findNextMinimas (yData : list R) : res (Z * Z) :=
  findNextMinimas_fuel (S (S (length yData))) yData.

(** ** Signal to noise ratio *)

(** A spectrum: the frequency row and the power row of a two-row array. *)
Definition spectrum : Type := (list R * list R)%type.

(** [y[abs(y - max(y)) < tol]]. *)
Definition near_max_mask (tol m : R) (y : list R) : list bool :=
  map (fun v => Rltb (Rabs (v - m)) tol) y.

Definition computeSignalToNoise (ampSpectrum : spectrum) (windowSize : R)
  : res xfloat :=
  let y := snd ampSpectrum in
  let x := fst ampSpectrum in
  '(lowerMinima, upperMinima) <- findNextMinimas y ;;
  length_half <-
    match Np.mean (Np.diff x) with
    | Fin singleStep =>
        if Reqb singleStep 0 then
          (if Reqb windowSize 0 then Raise (ValueError NanToInt)
           else Raise OverflowError)
        else Ok (trunc (windowSize / singleStep))
    | _ => Raise (ValueError NanToInt)
    end ;;
  let data :=
    Py.slice y (lowerMinima - length_half) lowerMinima
      ++ Py.slice y upperMinima (upperMinima + length_half) in
  let meanValue := Np.mean data in
  m <- Np.max y ;;
  match Py.mask y (near_max_mask (/ 1000000) m y) with
  | maxVal :: _ => Ok (xdiv maxVal meanValue)
  | [] => Raise IndexError
  end.

(** ** Nyquist frequency *)

(** A light curve: the time row and the flux row of a two-row array. *)
Definition lightcurve : Type := (list R * list R)%type.

(** Element-wise [a - b] on arrays of the same shape. *)
Definition sub_arrays (a b : list R) : list R :=
  map (fun p => fst p - snd p) (combine a b).

(** [np.unique(a, return_counts=True)]: the sorted distinct values, each with
    the number of times it occurs.  [unique_insert] adds one occurrence. *)
Fixpoint unique_insert (v : R) (l : list (R * nat)) : list (R * nat) :=
  match l with
  | [] => [(v, 1%nat)]
  | (u, c) :: l' =>
      if Rltb v u then (v, 1%nat) :: l
      else if Reqb v u then (u, S c) :: l'
      else (u, c) :: unique_insert v l'
  end.

Definition unique_counts (a : list R) : list (R * nat) :=
  fold_right unique_insert [] a.

(** [np.argmax] on the counts: the first entry whose count is largest. *)
Fixpoint argmax_from (best : R * nat) (l : list (R * nat)) : R * nat :=
  match l with
  | [] => best
  | p :: l' =>
      if (snd best <? snd p)%nat then argmax_from p l' else argmax_from best l'
  end.

Definition findMostCommonDiff (time : list R) : res R :=
  let realDiffX :=
    sub_arrays (Py.slice time 1 (Py.len time))
               (Py.slice time 0 (Py.len time - 1)) in
  match unique_counts realDiffX with
  | [] => Raise (ValueError EmptySequence)
  | p :: l => Ok (fst (argmax_from p l))
  end.

Definition nyquistFrequency (data : lightcurve) : res xfloat :=
  mostCommon <- findMostCommonDiff (fst data) ;;
  Ok (xdiv 1 (Fin (2 * mostCommon))).

(** ** Amplitude spectrum *)

Section AmplitudeSpectrum.

(** [LombScargle(t, y, normalization='psd').autopower(minimum_frequency,
    maximum_frequency, samples_per_peak)] of astropy: the frequency grid
    and the power on it.  The powers of a periodogram are not negative;
    for a negative power [np.sqrt] gives NaN, which the real [sqrt] of the
    model does not, so nothing is stated here about the powers that
    [calculateAmplitudeSpectrum] returns. *)
Variable autopower : lightcurve -> R -> R -> Z -> res (list R * list R).

Definition calculateAmplitudeSpectrum (data : lightcurve)
  (frequencyBoundary : R * R) : res spectrum :=
  if Rltb (snd frequencyBoundary) (fst frequencyBoundary)
  then Raise (ValueError FminAboveFmax)
  else
    nFrequency <- nyquistFrequency data ;;
    let max_frequency :=
      match nFrequency with
      | Fin n => if Rltb n (snd frequencyBoundary) then n
                 else snd frequencyBoundary
      | NInf => snd frequencyBoundary (* not produced by [nyquistFrequency] *)
      | PInf | NaN => snd frequencyBoundary
      end in
    '(f, p) <- autopower data (fst frequencyBoundary) max_frequency 100%Z ;;
    let p := map (fun v => sqrt (4 / INR (length (fst data))) * sqrt v) p in
    let p := Py.slice_from p 1 in
    let f := Py.slice_from f 1 in
    if negb (length p =? length f)%nat then Raise IndexError
    else
      let keep := map (fun v => Rltb v (snd frequencyBoundary)) f in
      let p := Py.mask p keep in
      let f := Py.mask f keep in
      Ok (f, p).

End AmplitudeSpectrum.

(** ** Fitting and removing the peak *)

Definition findMaxPowerFrequency (ampSpectrum : spectrum) : res (R * R) :=
  maxY <- Np.max (snd ampSpectrum) ;;
  match Py.mask (fst ampSpectrum)
                (near_max_mask (/ 10000) maxY (snd ampSpectrum)) with
  | maxX :: _ => Ok (maxY, maxX)
  | [] => Raise IndexError
  end.

(** The fit parameters [amp, f, phase]. *)
Definition params : Type := (R * R * R)%type.

Definition sin_model (x : list R) (q : params) : list R :=
  let '(amp, f, phase) := q in
  map (fun t => amp * sin (2 * PI * f * t + phase)) x.

(** The light curve with the fitted sinusoid taken out: line 109. *)
Definition residual (lightCurve : lightcurve) (popt : params) : lightcurve :=
  (fst lightCurve,
   sub_arrays (snd lightCurve) (sin_model (fst lightCurve) popt)).

Section PeakFit.

(** [curve_fit(sin, lightCurve[0], lightCurve[1], p0=arr)] of SciPy: the
    optimal parameters, or the exception it raises. *)
Variable curve_fit : lightcurve -> params -> res params.

(** The body of the sign correction: lines 103 to 106. *)
Definition correct_sign (popt : params) : params :=
  let '(a, f, ph) := popt in
  if Rltb a 0 || Rltb f 0
  then (Rabs a, Rabs f, ph + (if Rltb PI ph then - PI else PI))
  else popt.

(** The [while] loop; [retLightCurve] is unbound before the first round. *)
Fixpoint fit_loop (fuel : nat) (lightCurve : lightcurve)
  (popt arr : params) (retLightCurve : option lightcurve)
  : res (params * option lightcurve) :=
  let '(a, f, _) := popt in
  if Rltb a 0 || Rltb f 0 then
    match fuel with
    | O => Diverge
    | S fuel' =>
        popt <- curve_fit lightCurve arr ;;
        let popt := correct_sign popt in
        let arr := popt in
        let retLightCurve := residual lightCurve popt in
        fit_loop fuel' lightCurve popt arr (Some retLightCurve)
    end
  else Ok (popt, retLightCurve).

Definition findAndRemoveMaxFrequency_fuel (fuel : nat)
  (lightCurve : lightcurve) (ampSpectrum : spectrum)
  : res (params * lightcurve) :=
  '(maxY, maxX) <- findMaxPowerFrequency ampSpectrum ;;
  '(popt, retLightCurve) <-
    fit_loop fuel lightCurve (-1, -1, -1) (maxY, maxX, 0) None ;;
  match retLightCurve with
  | Some lc => Ok (popt, lc)
  | None => Raise UnboundLocalError
  end.

(** One round of the loop is all it ever runs (lemma [fit_loop_once]). *)
Definition findAndRemoveMaxFrequency (lightCurve : lightcurve)
  (ampSpectrum : spectrum) : res (params * lightcurve) :=
  findAndRemoveMaxFrequency_fuel 1 lightCurve ampSpectrum.

End PeakFit.

(** ** The extraction loop *)

(** An entry of [frequencyList]: [(frequency, snr, amplitude, phase)]. *)
Definition entry : Type := (R * xfloat * R * R)%type.

Definition entry_frequency (e : entry) : R := let '(f, _, _, _) := e in f.
Definition entry_snr (e : entry) : xfloat := let '(_, s, _, _) := e in s.

(** Every entry of the list has a signal to noise ratio above the
    criterion. *)
Definition significant (snrCriterion : R) (l : list entry) : Prop :=
  Forall (fun e => xgtb (entry_snr e) snrCriterion = true) l.

(** The row of [np.array(frequencyList)] an entry becomes. *)
Definition entry_row (e : entry) : list xfloat :=
  let '(f, s, a, p) := e in [Fin f; s; Fin a; Fin p].

Inductive mode_t : Type := Full | Normal | OtherMode.

(** The keyword arguments the loop reads; [None] is an absent key. *)
Record kwargs : Type := {
  mode : option mode_t;
  frequencyRange : option (R * R)
}.

(** The local variables of [recursiveFrequencyFinder] that the loop reads
    and writes; [None] is an unbound variable. *)
Record locals : Type := {
  snr : xfloat;
  fit : option params;
  data : lightcurve;
  frequencyList : list entry;
  amp : option spectrum;
  f_out : option (list R)
}.

(** The variables before the loop: lines 225 to 229. *)
Definition initial_locals (data : lightcurve) : locals :=
  {| snr := Fin 100; fit := None; data := data;
     frequencyList := []; amp := None; f_out := None |}.

Section ExtractionLoop.

Variable autopower : lightcurve -> R -> R -> Z -> res (list R * list R).
Variable curve_fit : lightcurve -> params -> res params.

(** The constants of [smurfs.support]: their values are not part of this
    module. *)
Variable similarFrequenciesCount : Z.
Variable similarityStdDev : R.

(** [True] lets the loop go on, [False] stops it. *)
Definition cutoffCriterion (frequencyList : list entry) : bool :=
  if (Py.len frequencyList <? similarFrequenciesCount)%Z then true
  else
    let lastFrequencies :=
      flat_map entry_row
        (Py.slice_from frequencyList (- similarFrequenciesCount)) in
    let stdDev := Np.xstd lastFrequencies in
    if xltb stdDev similarityStdDev then false else true.

Variable snrCriterion : R.
Variable windowSize : R.
Variable kw : kwargs.

(** One round of the [while] loop, lines 235 to 251, and whether the
    staleness check of line 253 lets the loop go on.  Writing the spectrum
    to disk and the time and intensity arrays of the spectrogram are left
    out; [f_out] is the frequency row [prepareSpectrogram] returns. *)
Definition round (st : locals) : res (locals * bool) :=
  let '(frequencyList, saveStuff) :=
    match fit st with
    | None => (frequencyList st, true)
    | Some (a, f, ph) =>
        (frequencyList st ++ [(f, snr st, a, ph)],
         match mode kw with
         | Some Full => true
         | Some _ => false
         | None => true
         end)
    end in
  range <- match frequencyRange kw with
           | Some r => Ok r
           | None => Raise KeyError
           end ;;
  amp <- calculateAmplitudeSpectrum autopower (data st) range ;;
  snr <- computeSignalToNoise amp windowSize ;;
  '(fit, data) <- findAndRemoveMaxFrequency curve_fit (data st) amp ;;
  let f_out := if saveStuff then Some (fst amp) else f_out st in
  Ok ({| snr := snr; fit := Some fit; data := data;
         frequencyList := frequencyList; amp := Some amp;
         f_out := f_out |},
      cutoffCriterion frequencyList).

Fixpoint extraction_loop (fuel : nat) (st : locals) : res locals :=
  if xgtb (snr st) snrCriterion then
    match fuel with
    | O => Diverge
    | S fuel' =>
        '(st', go_on) <- round st ;;
        if go_on then extraction_loop fuel' st' else Ok st'
    end
  else Ok st.

(** The frequency list and the frequency row of the spectrogram.  A
    [KeyboardInterrupt] is asynchronous and not modelled. *)
Definition recursiveFrequencyFinder (fuel : nat) (data : lightcurve)
  : res (list entry * option (list R)) :=
  _ <- Py.getitem (fst data) 0 ;;
  _ <- Np.max (fst data) ;;
  st <- extraction_loop fuel (initial_locals data) ;;
  _ <- match mode kw with
       | Some Normal =>
           match amp st with
           | Some _ => Ok tt
           | None => Raise UnboundLocalError
           end
       | _ => Ok tt
       end ;;
  Ok (frequencyList st, f_out st).

End ExtractionLoop.

(** ** The rounds of a run

    What the properties of the loop are stated with. *)

(** The tuple of the fit that the variables hold, as line 236 appends it;
    nothing while [fit] is unbound. *)
Definition entry_of (st : locals) : list entry :=
  match fit st with
  | Some (a, f, ph) => [(f, snr st, a, ph)]
  | None => []
  end.

Section Rounds.

Variable autopower : lightcurve -> R -> R -> Z -> res (list R * list R).
Variable curve_fit : lightcurve -> params -> res params.
Variable similarFrequenciesCount : Z.
Variable similarityStdDev : R.
Variable snrCriterion : R.
Variable windowSize : R.
Variable kw : kwargs.

(** [run st sts st']: started with the variables [st], the loop runs the
    rounds that leave the variables [sts], one after the other, and ends
    with the variables [st'], either at the [while] test or at the [break]
    of the staleness check. *)
Inductive run : locals -> list locals -> locals -> Prop :=
| run_stop (st : locals) :
    xgtb (snr st) snrCriterion = false ->
    run st [] st
| run_break (st st' : locals) :
    xgtb (snr st) snrCriterion = true ->
    round autopower curve_fit similarFrequenciesCount similarityStdDev
      windowSize kw st = Ok (st', false) ->
    run st [st'] st'
| run_go (st st' : locals) (sts : list locals) (st'' : locals) :
    xgtb (snr st) snrCriterion = true ->
    round autopower curve_fit similarFrequenciesCount similarityStdDev
      windowSize kw st = Ok (st', true) ->
    run st' sts st'' ->
    run st (st' :: sts) st''.

End Rounds.

(** ** Combining the results of several runs *)

(** The intensity array: one-dimensional after one input, a matrix of rows
    after more. *)
Inductive ndarray : Type :=
| Arr1 (a : list R)
| Arr2 (rows : list (list R)).

(** [np.row_stack((intensity, j))] for a one-dimensional [j]. *)
Definition row_stack (intensity : ndarray) (j : list R) : res ndarray :=
  let rows := match intensity with Arr1 a => [a] | Arr2 rows => rows end in
  if (length (hd [] rows) =? length j)%nat then Ok (Arr2 (rows ++ [j]))
  else Raise (ValueError ShapeMismatch).

(** The two [for] loops; the accumulator is unbound before the first
    round. *)
Fixpoint hstack_all (t : option (list R)) (tList : list (list R))
  : option (list R) :=
  match tList with
  | [] => t
  | i :: tList' =>
      hstack_all (match t with Some t => Some (t ++ i) | None => Some i end)
                 tList'
  end.

Fixpoint row_stack_all (intensity : option ndarray) (iList : list (list R))
  : res (option ndarray) :=
  match iList with
  | [] => Ok intensity
  | j :: iList' =>
      intensity' <- match intensity with
                    | Some a => row_stack a j
                    | None => Ok (Arr1 j)
                    end ;;
      row_stack_all (Some intensity') iList'
  end.

Definition combineDatasets (fList tList iList : list (list R))
  : res (list R * list R * ndarray) :=
  match fList, tList, iList with
  | [], _, _ | _, [], _ | _, _, [] => Raise (ValueError SizeOfLists)
  | f :: _, _, _ =>
      match hstack_all None tList with
      | None => Raise UnboundLocalError
      | Some t =>
          intensity <- row_stack_all None iList ;;
          match intensity with
          | None => Raise UnboundLocalError
          | Some intensity => Ok (f, t, intensity)
          end
      end
  end.

(** ** Staging the spectrogram *)

(** [np.linspace(a, b, num=5)]. *)
Definition linspace5 (a b : R) : list R :=
  map (fun k => a + INR k * ((b - a) / 4)) [0; 1; 2; 3; 4]%nat.

(** The [for] loop of [prepareSpectrogram]: [n] times
    [i = np.vstack((i, tmpSpectrum))]. *)
Fixpoint stack_times (n : nat) (i : ndarray) (tmpSpectrum : list R)
  : res ndarray :=
  match n with
  | O => Ok i
  | S n' => i' <- row_stack i tmpSpectrum ;; stack_times n' i' tmpSpectrum
  end.

(** [prepareSpectrogram] reads and sets the global [defines.maxiLength]: the
    first argument is its value before the call ([None] for the Python
    [None]) and the first component of the result its value after. *)
Definition prepareSpectrogram (maxiLength : option Z) (spectrum : spectrum)
  (timerange : Z * Z) : res (option Z * (list R * list R * ndarray)) :=
  let t := linspace5 (IZR (fst timerange)) (IZR (snd timerange)) in
  let f := fst spectrum in
  let i := snd spectrum in
  let '(maxiLength', i) :=
    match maxiLength with
    | None => (Some (Py.len i), i)
    | Some m =>
        if (Py.len i <? m)%Z
        then (Some m, i ++ repeat 0 (Z.to_nat (m - Py.len i)))
        else (Some m, Py.slice i 0 m)
    end in
  let tmpSpectrum := i in
  i <- stack_times (length t - 1) (Arr1 i) tmpSpectrum ;;
  Ok (maxiLength', (f, t, i)).

(** ** The noise window by positions

    The signal to noise ratio as the specification words it: the peak power
    over the mean power at the positions
    [lowerMinima - halfWindow <= k < lowerMinima] and
    [upperMinima <= k < upperMinima + halfWindow]. *)

(** The entries of [y] at the positions [a <= k < b] that exist. *)
Definition index_range (y : list R) (a b : Z) : list R :=
  let a' := Z.max 0 a in
  let b' := Z.min (Py.len y) b in
  map (fun i => nth i y 0) (seq (Z.to_nat a') (Z.to_nat (b' - a'))).

Definition snr_of_window (halfWindow : Z) (y : list R)
  (lowerMinima upperMinima : Z) (peakPower : R) : xfloat :=
  xdiv peakPower
    (Np.mean (index_range y (lowerMinima - halfWindow) lowerMinima
              ++ index_range y upperMinima (upperMinima + halfWindow))).

(** Rounding to the nearest integer. *)
Definition nearest (r : R) : Z := Int_part (r + / 2).

(** The position a negative index or slice bound stands for. *)
Definition wrap (n k : Z) : Z := if (k <? 0)%Z then (k + n)%Z else k.

(** ** Counting occurrences

    What the properties of [np.unique] are stated with. *)

(** How often [v] occurs in [a]. *)
Definition occurrences (a : list R) (v : R) : nat := count_occ Req_dec_T a v.

(** The count a table of values and counts gives for [v]. *)
Fixpoint lookupc (l : list (R * nat)) (v : R) : nat :=
  match l with
  | [] => 0%nat
  | (u, c) :: l' => if Reqb v u then c else lookupc l' v
  end.

(** All values of the table are above [v]. *)
Definition keys_above (v : R) (l : list (R * nat)) : Prop :=
  Forall (fun p => v < fst p) l.

(** The values of the table increase strictly. *)
Fixpoint sorted_keys (l : list (R * nat)) : Prop :=
  match l with
  | [] => True
  | p :: l' => keys_above (fst p) l' /\ sorted_keys l'
  end.

(** ** Sample inputs

    Inputs on which the functions above are run in the properties below. *)

Module Sample.

(** A spectrum whose peak, of height 3, is at frequency 2. *)
Definition peak_at_2 : spectrum := ([1; 2; 3], [/ 2; 3; / 5]).

Definition flat_curve : lightcurve := ([0; 1], [0; 0]).

(** An optimiser that answers a seed of phase 0 on the negative branch and
    any other seed with a different fit. *)
Definition fit_negative_first (_ : lightcurve) (seed : params) : res params :=
  let '(_, _, phase) := seed in
  if Reqb phase 0 then Ok (-1, 2, 0) else Ok (3, 2, / 2).

(** A frequency grid of step 1/20 and a power row with its peak, of
    height 5, at position 4 between minima at positions 3 and 5. *)
Definition grid : list R :=
  [/ 20; 2 / 20; 3 / 20; 4 / 20; 5 / 20; 6 / 20; 7 / 20; 8 / 20; 9 / 20].

Definition strong_peak : spectrum := (grid, [4; 1; 1; 0; 5; 0; 1; 1; 4]).

(** The same with a peak of height 2. *)
Definition weak_peak : spectrum := (grid, [1; 1; 1; 0; 2; 0; 1; 1; 1]).

(** A short spectrum with its peak in the middle. *)
Definition short_peak : spectrum := ([1; 2; 3; 4; 5], [3; 1; 5; 1; 3]).

(** A frequency list whose last three frequencies are 5.000, 5.001 and
    5.0005, each found with a signal to noise ratio of 10, an amplitude of
    1 and a phase of 0. *)
Definition similar_frequencies : list entry :=
  [(5, Fin 10, 1, 0); (5001 / 1000, Fin 10, 1, 0);
   (50005 / 10000, Fin 10, 1, 0)].

(** Four samples one time unit apart. *)
Definition unit_steps : lightcurve := ([0; 1; 2; 3], [0; 0; 0; 0]).

(** A periodogram of two grid points one frequency step of 1/300 apart,
    the step of a grid with 100 samples per peak over a baseline of 3. *)
Definition two_point_grid (_ : lightcurve) (minimum_frequency _ : R) (_ : Z)
  : res (list R * list R) :=
  Ok ([minimum_frequency; minimum_frequency + / 300], [1; 1]).

(** A periodogram on the grid [0 :: grid] that shows the strong peak while
    the first flux value is 0 and the weak peak afterwards; the powers are
    the squares of the amplitudes of [strong_peak] and [weak_peak]. *)
Definition fading_peak (lc : lightcurve) (_ _ : R) (_ : Z)
  : res (list R * list R) :=
  Ok (0 :: grid,
      if Reqb (hd 0 (snd lc)) 0
      then [0; 16; 1; 1; 0; 25; 0; 1; 1; 16]
      else [0; 1; 1; 1; 0; 4; 0; 1; 1; 1]).

(** An optimiser that always answers with amplitude 1, frequency 2 and
    phase pi/2. *)
Definition fit_constant (_ : lightcurve) (_ : params) : res params :=
  Ok (1, 2, PI / 2).

Definition keywords : kwargs :=
  {| mode := None; frequencyRange := Some (0, 50) |}.

End Sample.

(** * Properties *)

(** ** Evaluating comparisons on given reals *)

Lemma Rltb_true (x y : R) : x < y -> Rltb x y = true.
Proof. unfold Rltb; destruct (Rlt_dec x y); tauto. Qed.

Lemma Rltb_false (x y : R) : ~ x < y -> Rltb x y = false.
Proof. unfold Rltb; destruct (Rlt_dec x y); tauto. Qed.

Lemma Rltb_spec (x y : R) : Rltb x y = true <-> x < y.
Proof. unfold Rltb; destruct (Rlt_dec x y); split; auto; discriminate. Qed.

Lemma Reqb_true (x y : R) : x = y -> Reqb x y = true.
Proof. unfold Reqb; destruct (Req_dec_T x y); tauto. Qed.

Lemma Reqb_false (x y : R) : x <> y -> Reqb x y = false.
Proof. unfold Reqb; destruct (Req_dec_T x y); tauto. Qed.

Ltac rmax :=
  repeat match goal with
    | |- context [Rmax ?a ?b] =>
        first [ rewrite (Rmax_left a b) by lra
              | rewrite (Rmax_right a b) by lra ]
    end.

Ltac rltb :=
  repeat match goal with
    | |- context [Rltb (Rabs ?a) ?b] =>
        first [ rewrite (Rltb_true (Rabs a) b) by (apply Rabs_def1; lra)
              | rewrite (Rltb_false (Rabs a) b)
                  by (let H := fresh in intro H; apply Rabs_def2 in H; lra) ]
    | |- context [Rltb ?a ?b] =>
        first [ rewrite (Rltb_true a b) by lra
              | rewrite (Rltb_false a b) by lra ]
    | |- context [Reqb ?a ?b] =>
        first [ rewrite (Reqb_true a b) by lra
              | rewrite (Reqb_false a b) by lra ]
    end.

Ltac nats :=
  repeat match goal with
    | |- context [Pos.to_nat ?p] =>
        let n := eval vm_compute in (Pos.to_nat p) in
        change (Pos.to_nat p) with n
    | |- context [Z.to_nat ?p] =>
        let n := eval vm_compute in (Z.to_nat p) in
        change (Z.to_nat p) with n
    end.

(** Runs the minima scan on a given array. *)
Ltac run_minimas :=
  unfold findNextMinimas, findNextMinimas_fuel, peakIndex, Np.max;
  repeat (progress (cbn; unfold minimas_step, checkMinima, Py.getitem, Py.len;
                    cbn; nats; cbn; rmax; rltb)).

(** ** The minima scan *)

Lemma getitem_inbounds {A : Type} (a : list A) (k : Z) :
  (0 <= k < Py.len a)%Z -> exists v, Py.getitem a k = Ok v.
Proof.
  intros [Hlo Hhi]. unfold Py.getitem, Py.len in *.
  destruct (k <? 0)%Z eqn:E; [apply Z.ltb_lt in E; lia|]. rewrite E. clear E.
  destruct (nth_error a (Z.to_nat k)) eqn:E.
  - eexists; reflexivity.
  - apply nth_error_None in E. lia.
Qed.

Lemma checkMinima_inbounds (yData : list R) (k : Z) :
  (1 <= k)%Z -> (k + 1 < Py.len yData)%Z ->
  exists b, checkMinima yData k = Ok b.
Proof.
  intros Hlo Hhi. unfold checkMinima.
  destruct (getitem_inbounds yData k) as [c ->]; [lia|].
  destruct (getitem_inbounds yData (k + 1)) as [n ->]; [lia|].
  destruct (getitem_inbounds yData (k - 1)) as [p ->]; [lia|].
  cbn. destruct (Rltb c n); cbn; eauto.
Qed.

(** A round of the scan never raises, and at an edge it takes the position
    the counter has reached. *)
Lemma minimas_step_ok (yData : list R) (index counter lo up : Z) :
  (0 <= index < Py.len yData)%Z -> (1 <= counter)%Z ->
  exists lo' up',
    minimas_step yData index counter lo up = Ok (lo', up')
    /\ ((index - counter - 1 < 0)%Z -> lo' = (index - counter)%Z)
    /\ ((Py.len yData <= index + counter + 1)%Z -> up' = (index + counter)%Z).
Proof.
  intros Hi Hc. unfold minimas_step.
  destruct (index - counter - 1 <? 0)%Z eqn:El;
    [apply Z.ltb_lt in El | apply Z.ltb_ge in El];
    destruct (index + counter + 1 >=? Py.len yData)%Z eqn:Eu;
    try (apply Z.geb_le in Eu); try (rewrite Z.geb_leb in Eu; apply Z.leb_gt in Eu).
  - cbn. do 2 eexists. repeat split; auto.
  - destruct (checkMinima_inbounds yData (index + counter)) as [b Hb]; try lia.
    cbn. rewrite Hb. cbn. do 2 eexists. split; [reflexivity|]. split; auto. lia.
  - destruct (checkMinima_inbounds yData (index - counter)) as [b Hb]; try lia.
    rewrite Hb. cbn. do 2 eexists. split; [reflexivity|]. split; auto. lia.
  - destruct (checkMinima_inbounds yData (index - counter)) as [b Hb]; try lia.
    destruct (checkMinima_inbounds yData (index + counter)) as [b' Hb']; try lia.
    rewrite Hb. cbn. rewrite Hb'. cbn. do 2 eexists. split; [reflexivity|].
    split; lia.
Qed.

(** The scan returns once the counter has passed both edges. *)
Lemma minimas_loop_terminates (yData : list R) (index : Z) :
  (0 <= index < Py.len yData)%Z ->
  forall (fuel : nat) (counter lo up : Z),
    (1 <= counter)%Z ->
    (Z.max 0 (Z.max (index + 2) (Py.len yData - 1 - index) - counter)
     < Z.of_nat fuel)%Z ->
    exists r, minimas_loop fuel yData index counter lo up = Ok r.
Proof.
  intros Hi. induction fuel as [|fuel IH]; intros counter lo up Hc Hf.
  - lia.
  - cbn [minimas_loop].
    destruct (minimas_step_ok yData index counter lo up Hi Hc)
      as (lo' & up' & -> & Hlo & Hup).
    cbn [bind].
    destruct (negb (lo' =? -1)%Z && negb (up' =? -1)%Z) eqn:E; [eauto|].
    apply IH; [lia|].
    destruct (Z_lt_le_dec counter (Z.max (index + 2) (Py.len yData - 1 - index)));
      [lia|].
    exfalso. rewrite Hlo, Hup in E by lia.
    apply andb_false_iff in E.
    destruct E as [E|E]; apply negb_false_iff, Z.eqb_eq in E; lia.
Qed.

Lemma fold_left_Rmax_In (a : list R) (v : R) : In (fold_left Rmax a v) (v :: a).
Proof.
  revert v. induction a as [|u a IH]; intros v; cbn [fold_left].
  - left; reflexivity.
  - destruct (IH (Rmax v u)) as [H|H].
    + unfold Rmax in H at 1. destruct (Rle_dec v u).
      * right; left; exact H.
      * left; exact H.
    + right; right; exact H.
Qed.

Lemma first_within_In (tol m : R) (y : list R) (k : Z) :
  0 < tol -> In m y ->
  exists j, first_within tol m y k = Some j /\ (k <= j < k + Py.len y)%Z.
Proof.
  intros Htol. revert k. induction y as [|v y IH]; intros k Hin; [destruct Hin|].
  cbn [first_within]. unfold Py.len. cbn [length]. rewrite Nat2Z.inj_succ.
  destruct (Rltb (Rabs (v - m)) tol) eqn:E.
  - exists k. split; [reflexivity|lia].
  - destruct Hin as [->|Hin].
    + rewrite Rltb_true in E; [discriminate|].
      unfold Rminus. rewrite Rplus_opp_r, Rabs_R0. exact Htol.
    + destruct (IH (k + 1)%Z Hin) as (j & Hj & Hb).
      exists j. split; [exact Hj|]. unfold Py.len in Hb. lia.
Qed.

Lemma peakIndex_ok (yData : list R) :
  yData <> [] ->
  exists k, peakIndex yData = Ok k /\ (0 <= k < Py.len yData)%Z.
Proof.
  intros Hne. destruct yData as [|v y]; [congruence|].
  unfold peakIndex, Np.max. cbn [bind].
  destruct (first_within_In (/ 1000000) (fold_left Rmax y v) (v :: y) 0)
    as (j & -> & Hj).
  - lra.
  - apply fold_left_Rmax_In.
  - exists j. split; [reflexivity|lia].
Qed.

(** The scan returns on every array that is not empty. *)
Lemma findNextMinimas_total (yData : list R) :
  yData <> [] -> exists lo up, findNextMinimas yData = Ok (lo, up).
Proof.
  intros Hne. unfold findNextMinimas, findNextMinimas_fuel.
  destruct (peakIndex_ok yData Hne) as (k & -> & Hk). cbn [bind].
  destruct (minimas_loop_terminates yData k Hk (S (S (length yData))) 1 (-1) (-1))
    as [[lo up] Hr].
  - lia.
  - unfold Py.len in *. lia.
  - eauto.
Qed.

(** More fuel does not change a result. *)
Lemma minimas_loop_more_fuel (yData : list R) (index : Z) (r : Z * Z) :
  forall (fuel fuel' : nat) (counter lo up : Z),
    (fuel <= fuel')%nat ->
    minimas_loop fuel yData index counter lo up = Ok r ->
    minimas_loop fuel' yData index counter lo up = Ok r.
Proof.
  induction fuel as [|fuel IH]; intros fuel' counter lo up Hle H; [discriminate|].
  destruct fuel' as [|fuel']; [lia|].
  cbn [minimas_loop] in *.
  destruct (minimas_step yData index counter lo up) as [[lo' up']| |];
    cbn [bind] in *; try discriminate.
  destruct (negb (lo' =? -1)%Z && negb (up' =? -1)%Z); [exact H|].
  apply (IH fuel'); [lia|exact H].
Qed.

Lemma findNextMinimas_fuel_enough (yData : list R) (fuel : nat) :
  yData <> [] -> (S (S (length yData)) <= fuel)%nat ->
  findNextMinimas_fuel fuel yData = findNextMinimas yData.
Proof.
  intros Hne Hf. destruct (findNextMinimas_total yData Hne) as (lo & up & H).
  rewrite H. unfold findNextMinimas, findNextMinimas_fuel in *.
  destruct (peakIndex yData); cbn [bind] in *; try discriminate.
  eapply minimas_loop_more_fuel; eauto.
Qed.

(** C5, at the array [2 1 2 1 5 4 3 2 3].  The peak is at position 4 and
    position 3 is an interior local minimum next to it, but the scan goes on
    below it until the upper side has found its minimum at position 7, and
    by then the lower result has been overwritten by the minimum at
    position 1: the scan returns [(1, 7)], not the nearest minima
    [(3, 7)]. *)
Theorem findNextMinimas_overwrites_lower :
  let yData := [2; 1; 2; 1; 5; 4; 3; 2; 3] in
  peakIndex yData = Ok 4%Z
  /\ checkMinima yData 3 = Ok true
  /\ findNextMinimas yData = Ok (1, 7)%Z.
Proof.
  cbv zeta. split; [|split].
  - run_minimas. reflexivity.
  - run_minimas. reflexivity.
  - run_minimas. reflexivity.
Qed.

(** ** Fitting the peak *)

Section PeakFitFacts.

Variable curve_fit : lightcurve -> params -> res params.

Lemma correct_sign_nonneg (popt : params) :
  let '(a, f, _) := correct_sign popt in 0 <= a /\ 0 <= f.
Proof.
  destruct popt as [[a f] ph]. unfold correct_sign.
  destruct (Rltb a 0) eqn:Ea; cbn [orb].
  - split; apply Rabs_pos.
  - destruct (Rltb f 0) eqn:Ef.
    + split; apply Rabs_pos.
    + split; apply Rnot_lt_le; intro H; apply Rltb_spec in H; congruence.
Qed.

(** Whatever the optimiser answers, the loop runs one round: the corrected
    answer passes the loop test, and the optimiser is not called with it. *)
Lemma fit_loop_once (fuel : nat) (lightCurve : lightcurve) (arr : params) :
  fit_loop curve_fit (S fuel) lightCurve (-1, -1, -1) arr None
  = popt <- curve_fit lightCurve arr ;;
    Ok (correct_sign popt, Some (residual lightCurve (correct_sign popt))).
Proof.
  cbn [fit_loop]. rewrite Rltb_true by lra. cbn [orb].
  destruct (curve_fit lightCurve arr) as [popt| |]; cbn [bind]; try reflexivity.
  pose proof (correct_sign_nonneg popt) as H.
  destruct (correct_sign popt) as [[a f] ph] eqn:E. destruct H as [Ha Hf].
  assert (Hc : Rltb a 0 || Rltb f 0 = false).
  { rewrite !Rltb_false by lra. reflexivity. }
  destruct fuel; cbn [fit_loop]; rewrite Hc; reflexivity.
Qed.

Lemma findAndRemoveMaxFrequency_eq (lightCurve : lightcurve)
  (ampSpectrum : spectrum) :
  findAndRemoveMaxFrequency curve_fit lightCurve ampSpectrum
  = '(maxY, maxX) <- findMaxPowerFrequency ampSpectrum ;;
    popt <- curve_fit lightCurve (maxY, maxX, 0) ;;
    Ok (correct_sign popt, residual lightCurve (correct_sign popt)).
Proof.
  unfold findAndRemoveMaxFrequency, findAndRemoveMaxFrequency_fuel.
  destruct (findMaxPowerFrequency ampSpectrum) as [[maxY maxX]| |];
    cbn [bind]; try reflexivity.
  rewrite fit_loop_once.
  destruct (curve_fit lightCurve (maxY, maxX, 0)); reflexivity.
Qed.

(** More fuel than one round changes nothing. *)
Lemma findAndRemoveMaxFrequency_fuel_enough (fuel : nat)
  (lightCurve : lightcurve) (ampSpectrum : spectrum) :
  findAndRemoveMaxFrequency_fuel curve_fit (S fuel) lightCurve ampSpectrum
  = findAndRemoveMaxFrequency curve_fit lightCurve ampSpectrum.
Proof.
  unfold findAndRemoveMaxFrequency, findAndRemoveMaxFrequency_fuel.
  destruct (findMaxPowerFrequency ampSpectrum) as [[maxY maxX]| |];
    cbn [bind]; try reflexivity.
  rewrite !fit_loop_once. reflexivity.
Qed.

(** A returned fit has a non-negative amplitude and frequency. *)
Lemma findAndRemoveMaxFrequency_nonneg (lightCurve : lightcurve)
  (ampSpectrum : spectrum) (a f ph : R) (lc : lightcurve) :
  findAndRemoveMaxFrequency curve_fit lightCurve ampSpectrum
  = Ok ((a, f, ph), lc) ->
  0 <= a /\ 0 <= f.
Proof.
  rewrite findAndRemoveMaxFrequency_eq.
  destruct (findMaxPowerFrequency ampSpectrum) as [[maxY maxX]| |];
    cbn [bind]; try discriminate.
  destruct (curve_fit lightCurve (maxY, maxX, 0)) as [popt| |];
    cbn [bind]; try discriminate.
  intros H. injection H as H _.
  pose proof (correct_sign_nonneg popt) as Hn. rewrite H in Hn. exact Hn.
Qed.

End PeakFitFacts.

Lemma findMaxPowerFrequency_peak_at_2 :
  findMaxPowerFrequency Sample.peak_at_2 = Ok (3, 2).
Proof.
  unfold findMaxPowerFrequency, Sample.peak_at_2, Np.max, near_max_mask.
  cbn. rmax. rltb. reflexivity.
Qed.

(** C1, with an optimiser that answers the seed [(3, 2, 0)] with the
    negative-amplitude fit [(-1, 2, 0)].  The loop takes the absolute values
    and adds pi to the phase, and returns [(1, 2, pi)] at once: the corrected
    triple is never given to the optimiser as a seed, which would have
    answered it with [(3, 2, 1/2)]. *)
Theorem findAndRemoveMaxFrequency_no_refit :
  findAndRemoveMaxFrequency Sample.fit_negative_first
    Sample.flat_curve Sample.peak_at_2
  = Ok ((1, 2, PI), residual Sample.flat_curve (1, 2, PI))
  /\ Sample.fit_negative_first Sample.flat_curve (1, 2, PI) = Ok (3, 2, / 2).
Proof.
  pose proof PI_RGT_0 as Hpi.
  split.
  - rewrite findAndRemoveMaxFrequency_eq, findMaxPowerFrequency_peak_at_2.
    cbn [bind Sample.fit_negative_first]. rewrite Reqb_true by reflexivity.
    cbn [bind correct_sign]. rewrite (Rltb_true (-1) 0) by lra. cbn [orb].
    rewrite (Rltb_false PI 0) by lra.
    rewrite Rabs_left by lra. rewrite Rabs_right by lra.
    replace (- -1) with 1 by lra. replace (0 + PI) with PI by lra.
    reflexivity.
  - cbn [Sample.fit_negative_first]. rewrite Reqb_false by lra. reflexivity.
Qed.

(** ** The extraction loop *)

Section ExtractionLoopFacts.

Variable autopower : lightcurve -> R -> R -> Z -> res (list R * list R).
Variable curve_fit : lightcurve -> params -> res params.
Variable similarFrequenciesCount : Z.
Variable similarityStdDev : R.
Variable snrCriterion : R.
Variable windowSize : R.
Variable kw : kwargs.

(** A round that starts with a significant signal to noise ratio keeps the
    list significant: what it appends is the fit of the round before, with
    the ratio that let the loop go on. *)
Lemma round_significant (st st' : locals) (go_on : bool) :
  xgtb (snr st) snrCriterion = true ->
  significant snrCriterion (frequencyList st) ->
  round autopower curve_fit similarFrequenciesCount similarityStdDev
    windowSize kw st = Ok (st', go_on) ->
  significant snrCriterion (frequencyList st').
Proof.
  intros Hsnr Hsig. unfold round.
  destruct (fit st) as [[[a f] ph]|].
  - destruct (frequencyRange kw); cbn [bind]; try discriminate.
    destruct (calculateAmplitudeSpectrum _ _ _); cbn [bind]; try discriminate.
    destruct (computeSignalToNoise _ _); cbn [bind]; try discriminate.
    destruct (findAndRemoveMaxFrequency _ _ _) as [[q d]| |];
      cbn [bind]; try discriminate.
    intros H. injection H as <- _. cbn [frequencyList].
    apply Forall_app. split; [exact Hsig|].
    constructor; [exact Hsnr|constructor].
  - destruct (frequencyRange kw); cbn [bind]; try discriminate.
    destruct (calculateAmplitudeSpectrum _ _ _); cbn [bind]; try discriminate.
    destruct (computeSignalToNoise _ _); cbn [bind]; try discriminate.
    destruct (findAndRemoveMaxFrequency _ _ _) as [[q d]| |];
      cbn [bind]; try discriminate.
    intros H. injection H as <- _. exact Hsig.
Qed.

Lemma extraction_loop_significant (fuel : nat) :
  forall st st' : locals,
    significant snrCriterion (frequencyList st) ->
    extraction_loop autopower curve_fit similarFrequenciesCount
      similarityStdDev snrCriterion windowSize kw fuel st = Ok st' ->
    significant snrCriterion (frequencyList st').
Proof.
  induction fuel as [|fuel IH]; intros st st' Hsig; cbn [extraction_loop];
    destruct (xgtb (snr st) snrCriterion) eqn:Hsnr;
    try discriminate; try (intros H; injection H as <-; exact Hsig).
  destruct (round autopower curve_fit similarFrequenciesCount
              similarityStdDev windowSize kw st) as [[st1 go_on]| |] eqn:Hr;
    cbn [bind]; try discriminate.
  pose proof (round_significant st st1 go_on Hsnr Hsig Hr) as Hsig1.
  destruct go_on.
  - apply IH. exact Hsig1.
  - intros H. injection H as <-. exact Hsig1.
Qed.

End ExtractionLoopFacts.

(** ** Slices by positions *)

Lemma firstn_skipn_seq (y : list R) :
  forall k n : nat,
    (k + n <= length y)%nat ->
    firstn n (skipn k y) = map (fun i => nth i y 0) (seq k n).
Proof.
  induction y as [|v y IH]; intros k n Hle.
  - cbn in Hle. assert (n = 0%nat) by lia. subst n.
    rewrite firstn_O. reflexivity.
  - destruct k as [|k].
    + destruct n as [|n]; [reflexivity|].
      cbn [skipn firstn seq map nth]. f_equal.
      rewrite <- seq_shift, map_map. cbn [nth].
      apply (IH 0%nat n). cbn in Hle. lia.
    + cbn [skipn]. rewrite <- seq_shift, map_map. cbn [nth].
      apply IH. cbn in Hle. lia.
Qed.

(** A slice holds the entries at the positions its bounds stand for. *)
Lemma slice_index_range (y : list R) (a b : Z) :
  Py.slice y a b = index_range y (wrap (Py.len y) a) (wrap (Py.len y) b).
Proof.
  unfold Py.slice, index_range, Py.clamp, wrap.
  set (n := Py.len y).
  set (a' := if (a <? 0)%Z then (a + n)%Z else a).
  set (b' := if (b <? 0)%Z then (b + n)%Z else b).
  assert (Hn : n = Z.of_nat (length y)) by reflexivity.
  destruct (Z_lt_le_dec a' n) as [Ha|Ha].
  - replace (Z.max 0 (Z.min n a')) with (Z.max 0 a') by lia.
    destruct (Z_lt_le_dec (Z.min n b') (Z.max 0 a')) as [Hb|Hb].
    + replace (Z.to_nat (Z.max 0 (Z.min n b') - Z.max 0 a')) with 0%nat by lia.
      replace (Z.to_nat (Z.min n b' - Z.max 0 a')) with 0%nat by lia.
      rewrite firstn_O. reflexivity.
    + replace (Z.max 0 (Z.min n b')) with (Z.min n b') by lia.
      apply firstn_skipn_seq. lia.
  - replace (Z.to_nat (Z.min n b' - Z.max 0 a')) with 0%nat by lia.
    rewrite skipn_all2 by lia. rewrite firstn_nil. reflexivity.
Qed.

Lemma index_range_empty (y : list R) (a b : Z) :
  (Z.min (Py.len y) b <= Z.max 0 a)%Z -> index_range y a b = [].
Proof.
  intros H. unfold index_range.
  replace (Z.to_nat (Z.min (Py.len y) b - Z.max 0 a)) with 0%nat by lia.
  reflexivity.
Qed.

(** ** The signal to noise ratio *)

Lemma trunc_between (r : R) (z : Z) :
  0 <= r -> IZR z <= r < IZR z + 1 -> trunc r = z.
Proof.
  intros Hr [Hlo Hhi]. unfold trunc.
  destruct (Rle_dec 0 r); [|contradiction].
  symmetry. apply Int_part_spec. lra.
Qed.

(** The upper result of the scan is a position above the peak. *)
Lemma minimas_loop_upper (yData : list R) (index : Z) :
  (0 <= index)%Z ->
  forall (fuel : nat) (counter lo up lo' up' : Z),
    (1 <= counter)%Z -> (up = -1 \/ 1 <= up)%Z ->
    minimas_loop fuel yData index counter lo up = Ok (lo', up') ->
    (1 <= up')%Z.
Proof.
  intros Hi. induction fuel as [|fuel IH]; intros counter lo up lo' up' Hc Hup;
    cbn [minimas_loop]; [discriminate|].
  unfold minimas_step.
  destruct (if (index - counter - 1 <? 0)%Z then Ok (index - counter)%Z
            else b <- checkMinima yData (index - counter);;
                 Ok (if b then (index - counter)%Z else lo)) as [l1| |];
    cbn [bind]; try discriminate.
  assert (Hu : forall u1,
             (if (index + counter + 1 >=? Py.len yData)%Z
              then Ok (index + counter)%Z
              else b <- checkMinima yData (index + counter);;
                   Ok (if b then (index + counter)%Z else up)) = Ok u1 ->
             (u1 = -1 \/ 1 <= u1)%Z).
  { intros u1. destruct (index + counter + 1 >=? Py.len yData)%Z.
    - intros H; injection H as <-. lia.
    - destruct (checkMinima yData (index + counter)) as [[|]| |];
        cbn [bind]; try discriminate; intros H; injection H as <-; lia. }
  destruct (if (index + counter + 1 >=? Py.len yData)%Z
            then Ok (index + counter)%Z
            else b <- checkMinima yData (index + counter);;
                 Ok (if b then (index + counter)%Z else up)) as [u1| |];
    cbn [bind]; try discriminate.
  specialize (Hu u1 eq_refl).
  destruct (negb (l1 =? -1)%Z && negb (u1 =? -1)%Z) eqn:E.
  - intros H; injection H as <- <-.
    apply andb_true_iff in E. destruct E as [_ E].
    apply negb_true_iff, Z.eqb_neq in E. lia.
  - apply IH; [lia|exact Hu].
Qed.

Lemma findNextMinimas_upper (yData : list R) (lo up : Z) :
  findNextMinimas yData = Ok (lo, up) -> (1 <= up)%Z.
Proof.
  unfold findNextMinimas, findNextMinimas_fuel.
  destruct yData as [|v y]; [discriminate|].
  destruct (peakIndex_ok (v :: y)) as (k & -> & Hk); [discriminate|].
  cbn [bind]. apply minimas_loop_upper; lia.
Qed.

Lemma mask_near_max_nonempty (tol m : R) (y : list R) :
  0 < tol -> In m y -> Py.mask y (near_max_mask tol m y) <> [].
Proof.
  intros Htol. induction y as [|v y IH]; intros Hin; [destruct Hin|].
  cbn [near_max_mask map Py.mask].
  destruct (Rltb (Rabs (v - m)) tol) eqn:E; [discriminate|].
  destruct Hin as [->|Hin]; [|apply IH; exact Hin].
  rewrite Rltb_true in E; [discriminate|].
  unfold Rminus. rewrite Rplus_opp_r, Rabs_R0. exact Htol.
Qed.

(** With a usable frequency step, the ratio is computed on every array that
    is not empty: no position of the noise window raises. *)
Lemma computeSignalToNoise_returns (x y : list R) (windowSize step : R) :
  y <> [] -> Np.mean (Np.diff x) = Fin step -> step <> 0 ->
  exists v, computeSignalToNoise (x, y) windowSize = Ok v.
Proof.
  intros Hne Hmean Hstep. unfold computeSignalToNoise. cbn [fst snd].
  destruct (findNextMinimas_total y Hne) as (lo & up & ->). cbn [bind].
  rewrite Hmean, Reqb_false by exact Hstep. cbn [bind].
  destruct y as [|v y]; [congruence|]. unfold Np.max. cbn [bind].
  pose proof (mask_near_max_nonempty (/ 1000000) (fold_left Rmax y v) (v :: y))
    as Hm.
  destruct (Py.mask (v :: y) (near_max_mask (/ 1000000) (fold_left Rmax y v) (v :: y))).
  - exfalso. apply Hm; [lra|apply fold_left_Rmax_In|reflexivity].
  - eauto.
Qed.

Ltac run_snr :=
  unfold Py.slice, Py.clamp, Py.len, Np.max, near_max_mask, Np.mean;
  cbn; nats; cbn; rmax; rltb; cbn; rltb.

Lemma findNextMinimas_strong_peak :
  findNextMinimas (snd Sample.strong_peak) = Ok (3, 5)%Z.
Proof. unfold Sample.strong_peak. cbn [snd]. run_minimas. reflexivity. Qed.

Lemma mean_diff_grid : Np.mean (Np.diff Sample.grid) = Fin (/ 20).
Proof. unfold Sample.grid, Np.mean. cbn. f_equal. lra. Qed.

Lemma computeSignalToNoise_strong_peak :
  computeSignalToNoise Sample.strong_peak (27 / 200) = Ok (Fin (20 / 3)).
Proof.
  unfold computeSignalToNoise. rewrite findNextMinimas_strong_peak.
  cbn [bind fst snd Sample.strong_peak]. rewrite mean_diff_grid.
  rltb. rewrite (trunc_between _ 2) by (cbn; lra).
  cbn [bind]. run_snr. do 2 f_equal. lra.
Qed.

(** C4, amended.  When the minima scan returns [(lowerMinima, upperMinima)]
    and the mean frequency step is not zero, the ratio is the peak power
    over the mean power at the positions
    [lowerMinima - halfWindow <= k < lowerMinima] and
    [upperMinima <= k < upperMinima + halfWindow], where [halfWindow] is
    [windowSize / meanFrequencyStep] truncated towards zero, not rounded,
    and lies between 0 and [lowerMinima]. *)
Theorem computeSignalToNoise_window (x y : list R) (windowSize step m peak : R)
  (rest : list R) (lowerMinima upperMinima : Z) :
  findNextMinimas y = Ok (lowerMinima, upperMinima) ->
  Np.mean (Np.diff x) = Fin step -> step <> 0 ->
  Np.max y = Ok m ->
  Py.mask y (near_max_mask (/ 1000000) m y) = peak :: rest ->
  (0 <= trunc (windowSize / step) <= lowerMinima)%Z ->
  computeSignalToNoise (x, y) windowSize
  = Ok (snr_of_window (trunc (windowSize / step)) y
          lowerMinima upperMinima peak).
Proof.
  intros Hmin Hmean Hstep Hmax Hmask Hhalf.
  pose proof (findNextMinimas_upper y _ _ Hmin) as Hup.
  unfold computeSignalToNoise. cbn [fst snd]. rewrite Hmin. cbn [bind].
  rewrite Hmean, Reqb_false by exact Hstep. cbn [bind].
  rewrite Hmax. cbn [bind]. rewrite Hmask.
  unfold snr_of_window. rewrite !slice_index_range. unfold wrap.
  repeat match goal with
         | |- context [(?k <? 0)%Z] =>
             let E := fresh in
             destruct (k <? 0)%Z eqn:E; [apply Z.ltb_lt in E; lia|clear E]
         end.
  reflexivity.
Qed.

Lemma computeSignalToNoise_window_witness :
  computeSignalToNoise Sample.strong_peak (27 / 200)
  = Ok (snr_of_window (trunc (27 / 200 / / 20)) (snd Sample.strong_peak) 3 5 5).
Proof.
  apply (computeSignalToNoise_window Sample.grid (snd Sample.strong_peak)
           (27 / 200) (/ 20) 5 5 [] 3 5).
  - exact findNextMinimas_strong_peak.
  - exact mean_diff_grid.
  - lra.
  - cbn. rmax. reflexivity.
  - cbn. rltb. reflexivity.
  - rewrite (trunc_between _ 2) by (cbn; lra). lia.
Defined.

(** C4 as stated fails on the spectrum [Sample.strong_peak] with a window
    of 27/200, which is 2.7 frequency steps: the source takes 2 positions
    on each side of the minima and returns 20/3, where the count rounded to
    the nearest integer, 3, gives 15/4. *)
Lemma computeSignalToNoise_not_rounded :
  findNextMinimas (snd Sample.strong_peak) = Ok (3, 5)%Z
  /\ Np.mean (Np.diff (fst Sample.strong_peak)) = Fin (/ 20)
  /\ nearest (27 / 200 / / 20) = 3%Z
  /\ computeSignalToNoise Sample.strong_peak (27 / 200) = Ok (Fin (20 / 3))
  /\ snr_of_window (nearest (27 / 200 / / 20)) (snd Sample.strong_peak) 3 5 5
     = Fin (15 / 4)
  /\ 20 / 3 <> 15 / 4.
Proof.
  assert (Hn : nearest (27 / 200 / / 20) = 3%Z).
  { unfold nearest. symmetry. apply Int_part_spec. cbn. lra. }
  split; [exact findNextMinimas_strong_peak|].
  split; [exact mean_diff_grid|].
  split; [exact Hn|].
  split; [exact computeSignalToNoise_strong_peak|].
  split; [|lra].
  rewrite Hn. unfold snr_of_window, index_range, Sample.strong_peak, xdiv.
  run_snr. f_equal. lra.
Qed.

Lemma findNextMinimas_short_peak :
  findNextMinimas (snd Sample.short_peak) = Ok (1, 3)%Z.
Proof. unfold Sample.short_peak. cbn [snd]. run_minimas. reflexivity. Qed.

Lemma mean_diff_short_peak :
  Np.mean (Np.diff (fst Sample.short_peak)) = Fin 1.
Proof. unfold Sample.short_peak, Np.mean. cbn. f_equal. lra. Qed.

(** What [computeSignalToNoise] returns, by positions: the peak power over
    the mean power at the positions that the bounds of its two slices stand
    for, a negative bound counting from the end of the array. *)
Lemma computeSignalToNoise_positions (x y : list R)
  (windowSize step m peak : R) (rest : list R) (lowerMinima upperMinima : Z) :
  findNextMinimas y = Ok (lowerMinima, upperMinima) ->
  Np.mean (Np.diff x) = Fin step -> step <> 0 ->
  Np.max y = Ok m ->
  Py.mask y (near_max_mask (/ 1000000) m y) = peak :: rest ->
  let halfWindow := trunc (windowSize / step) in
  computeSignalToNoise (x, y) windowSize
  = Ok (xdiv peak
          (Np.mean
             (index_range y (wrap (Py.len y) (lowerMinima - halfWindow))
                (wrap (Py.len y) lowerMinima)
              ++ index_range y (wrap (Py.len y) upperMinima)
                   (wrap (Py.len y) (upperMinima + halfWindow))))).
Proof.
  intros Hmin Hmean Hstep Hmax Hmask halfWindow.
  unfold computeSignalToNoise. cbn [fst snd]. rewrite Hmin. cbn [bind].
  rewrite Hmean, Reqb_false by exact Hstep. cbn [bind].
  rewrite Hmax. cbn [bind]. rewrite Hmask.
  rewrite !slice_index_range. reflexivity.
Qed.

(** C10, amended.  When [lowerMinima - halfWindow] is negative,
    [computeSignalToNoise] raises no error and returns the peak power over
    the mean of a noise window that is
    - the upper window alone, the lower window being empty, when
      [lowerMinima] is not negative and [halfWindow] is at most the length
      of the array;
    - the entries from position [max 0 (lowerMinima - halfWindow + len)] up
      to [lowerMinima], at the lower end of the array, followed by the
      upper window, when [lowerMinima] is not negative and [halfWindow]
      exceeds the length;
    - the entries at the positions [len + lowerMinima - halfWindow <= k <
      len + lowerMinima], counted from the upper end of the array, followed
      by the upper window, when [lowerMinima] is negative and [halfWindow]
      is not.
    The upper window holds the positions [upperMinima <= k < upperMinima +
    halfWindow] that exist. *)
Theorem computeSignalToNoise_lower_window (x y : list R)
  (windowSize step m peak : R) (rest : list R) (lowerMinima upperMinima : Z) :
  findNextMinimas y = Ok (lowerMinima, upperMinima) ->
  Np.mean (Np.diff x) = Fin step -> step <> 0 ->
  Np.max y = Ok m ->
  Py.mask y (near_max_mask (/ 1000000) m y) = peak :: rest ->
  let halfWindow := trunc (windowSize / step) in
  let upper := index_range y upperMinima (upperMinima + halfWindow) in
  (lowerMinima - halfWindow < 0)%Z ->
  ((0 <= lowerMinima)%Z -> (halfWindow <= Py.len y)%Z ->
   computeSignalToNoise (x, y) windowSize
   = Ok (xdiv peak (Np.mean upper)))
  /\ ((0 <= lowerMinima)%Z -> (Py.len y < halfWindow)%Z ->
      computeSignalToNoise (x, y) windowSize
      = Ok (xdiv peak
              (Np.mean
                 (index_range y (lowerMinima - halfWindow + Py.len y)
                    lowerMinima
                  ++ upper))))
  /\ ((lowerMinima < 0)%Z -> (0 <= halfWindow)%Z ->
      computeSignalToNoise (x, y) windowSize
      = Ok (xdiv peak
              (Np.mean
                 (index_range y (Py.len y + lowerMinima - halfWindow)
                    (Py.len y + lowerMinima)
                  ++ upper)))).
Proof.
  intros Hmin Hmean Hstep Hmax Hmask halfWindow upper Hneg.
  pose proof (findNextMinimas_upper y _ _ Hmin) as Hup.
  pose proof (computeSignalToNoise_positions x y windowSize step m peak rest
                lowerMinima upperMinima Hmin Hmean Hstep Hmax Hmask) as Heq.
  cbv zeta in Heq. fold halfWindow in Heq. rewrite Heq. clear Heq.
  unfold wrap.
  destruct (lowerMinima - halfWindow <? 0)%Z eqn:E;
    [clear E|apply Z.ltb_ge in E; lia].
  destruct (upperMinima <? 0)%Z eqn:Eu; [apply Z.ltb_lt in Eu; lia|clear Eu].
  split; [|split]; intros Hlo Hlen.
  - destruct (lowerMinima <? 0)%Z eqn:E; [apply Z.ltb_lt in E; lia|clear E].
    destruct (upperMinima + halfWindow <? 0)%Z eqn:E;
      [apply Z.ltb_lt in E; lia|clear E].
    rewrite (index_range_empty y (lowerMinima - halfWindow + Py.len y)
               lowerMinima) by lia.
    reflexivity.
  - destruct (lowerMinima <? 0)%Z eqn:E; [apply Z.ltb_lt in E; lia|clear E].
    destruct (upperMinima + halfWindow <? 0)%Z eqn:E;
      [apply Z.ltb_lt in E; lia|clear E].
    reflexivity.
  - destruct (lowerMinima <? 0)%Z eqn:E; [clear E|apply Z.ltb_ge in E; lia].
    destruct (upperMinima + halfWindow <? 0)%Z eqn:E;
      [apply Z.ltb_lt in E; lia|clear E].
    replace (lowerMinima - halfWindow + Py.len y)%Z
      with (Py.len y + lowerMinima - halfWindow)%Z by lia.
    replace (lowerMinima + Py.len y)%Z with (Py.len y + lowerMinima)%Z by lia.
    reflexivity.
Qed.

Lemma computeSignalToNoise_lower_window_witness :
  computeSignalToNoise Sample.short_peak 3
  = Ok (xdiv 5
          (Np.mean
             (index_range (snd Sample.short_peak) 3 (3 + trunc (3 / 1))))).
Proof.
  assert (Ht : trunc (3 / 1) = 3%Z) by (apply trunc_between; cbn; lra).
  apply (computeSignalToNoise_lower_window
           (fst Sample.short_peak) (snd Sample.short_peak) 3 1 5 5 [] 1 3
           findNextMinimas_short_peak mean_diff_short_peak).
  - lra.
  - cbn. rmax. reflexivity.
  - cbn. rltb. reflexivity.
  - rewrite Ht. reflexivity.
  - lia.
  - rewrite Ht. cbn. lia.
Defined.

(** C10 as stated fails on the spectrum [Sample.short_peak], of length 5,
    with a window of 7 frequency steps: [lowerMinima] is 1, not negative,
    [lowerMinima - halfWindow] is -6, and the lower window is not empty but
    holds the entry at position 0. *)
Lemma computeSignalToNoise_lower_window_clamped :
  findNextMinimas (snd Sample.short_peak) = Ok (1, 3)%Z
  /\ trunc (7 / 1) = 7%Z
  /\ Py.slice (snd Sample.short_peak) (1 - 7) 1 = [3]
  /\ computeSignalToNoise Sample.short_peak 7 = Ok (Fin (15 / 7)).
Proof.
  assert (Ht : trunc (7 / 1) = 7%Z) by (apply trunc_between; cbn; lra).
  split; [exact findNextMinimas_short_peak|].
  split; [exact Ht|].
  split; [reflexivity|].
  unfold computeSignalToNoise. rewrite findNextMinimas_short_peak.
  cbn [bind]. rewrite mean_diff_short_peak. rltb. rewrite Ht.
  cbn [bind]. unfold Sample.short_peak. cbn [snd]. run_snr.
  do 2 f_equal. lra.
Qed.

(** ** Combining data sets *)

Lemma hstack_all_concat (tList : list (list R)) (t : list R) :
  hstack_all (Some t) tList = Some (t ++ concat tList).
Proof.
  revert t. induction tList as [|i tList IH]; intros t; cbn [hstack_all concat].
  - rewrite app_nil_r. reflexivity.
  - rewrite IH, app_assoc. reflexivity.
Qed.

(** Rows of one length stack onto a matrix of that width. *)
Lemma row_stack_all_same_length (n : nat) (iList : list (list R)) :
  Forall (fun r => length r = n) iList ->
  forall (r0 : list R) (rows : list (list R)),
    length r0 = n ->
    row_stack_all (Some (Arr2 (r0 :: rows))) iList
    = Ok (Some (Arr2 (r0 :: rows ++ iList))).
Proof.
  induction 1 as [|j iList Hj _ IH]; intros r0 rows Hr0; cbn [row_stack_all].
  - rewrite app_nil_r. reflexivity.
  - unfold row_stack. cbn [hd]. rewrite Hr0, Hj, Nat.eqb_refl. cbn [bind].
    change ((r0 :: rows) ++ [j]) with (r0 :: (rows ++ [j])).
    rewrite IH by exact Hr0. rewrite <- app_assoc. reflexivity.
Qed.

Lemma row_stack_all_raises (iList : list (list R)) :
  forall (acc : option ndarray) (e : exn),
    row_stack_all acc iList = Raise e -> e = ValueError ShapeMismatch.
Proof.
  induction iList as [|j iList IH]; intros acc e; cbn [row_stack_all];
    [discriminate|].
  destruct acc as [a|]; cbn [bind].
  - unfold row_stack.
    destruct (length (hd [] match a with Arr1 a0 => [a0] | Arr2 rows => rows end)
              =? length j)%nat; cbn [bind].
    + apply IH.
    + intros H; injection H as <-; reflexivity.
  - apply IH.
Qed.

(** C9, amended.  [combineDatasets] raises its own error exactly when one of
    the three collections is empty.  Otherwise, when the intensity arrays
    all have the length of the first, it returns the first frequency array,
    the time arrays end to end, and the intensity arrays as the rows of a
    matrix if there are two or more of them, or the one intensity array
    itself, one-dimensional, if there is one. *)
Theorem combineDatasets_spec (fList tList iList : list (list R)) :
  (combineDatasets fList tList iList = Raise (ValueError SizeOfLists)
   <-> fList = [] \/ tList = [] \/ iList = [])
  /\ (forall (f : list R) (fs : list (list R)) (j : list R) (js : list (list R)),
        fList = f :: fs -> tList <> [] -> iList = j :: js ->
        Forall (fun r => length r = length j) js ->
        combineDatasets fList tList iList
        = Ok (f, concat tList,
              match js with [] => Arr1 j | _ :: _ => Arr2 (j :: js) end)).
Proof.
  split.
  - split.
    + intros H. destruct fList as [|f fs]; [auto|].
      destruct tList as [|t ts]; [auto|].
      destruct iList as [|j js]; [auto|]. exfalso.
      unfold combineDatasets in H. cbn [hstack_all] in H.
      rewrite hstack_all_concat in H.
      destruct (row_stack_all None (j :: js)) as [[a|]|e|] eqn:E;
        cbn [bind] in H; try discriminate.
      apply row_stack_all_raises in E. congruence.
    + intros [->|[->| ->]]; [reflexivity| |].
      * destruct fList; reflexivity.
      * destruct fList; destruct tList; reflexivity.
  - intros f fs j js -> Ht -> Hlen.
    destruct tList as [|t ts]; [congruence|].
    unfold combineDatasets. cbn [hstack_all]. rewrite hstack_all_concat.
    cbn [row_stack_all bind concat].
    destruct js as [|j' js]; [reflexivity|].
    cbn [row_stack_all]. unfold row_stack. cbn [hd].
    inversion Hlen as [|? ? Hj' Hjs]; subst.
    rewrite Hj', Nat.eqb_refl. cbn [bind app].
    rewrite (row_stack_all_same_length (length j) js Hjs j [j']) by reflexivity.
    reflexivity.
Qed.

(** The example of the specification. *)
Lemma combineDatasets_spec_witness :
  combineDatasets [[1; 2; 3]] [[0; 1]; [2; 3]] [[/ 10; 2 / 10]; [3 / 10; 4 / 10]]
  = Ok ([1; 2; 3], [0; 1; 2; 3], Arr2 [[/ 10; 2 / 10]; [3 / 10; 4 / 10]]).
Proof.
  apply (proj2 (combineDatasets_spec
                  [[1; 2; 3]] [[0; 1]; [2; 3]]
                  [[/ 10; 2 / 10]; [3 / 10; 4 / 10]])
           [1; 2; 3] [] [/ 10; 2 / 10] [[3 / 10; 4 / 10]]).
  - reflexivity.
  - discriminate.
  - reflexivity.
  - repeat constructor.
Defined.

(** C9 as stated fails when no collection is empty and the intensity arrays
    differ in length: the stacking raises, and with one intensity array the
    result is that array and not a matrix. *)
Lemma combineDatasets_shape_mismatch :
  combineDatasets [[1; 2; 3]] [[0; 1]; [2; 3]] [[/ 10; 2 / 10]; [3 / 10]]
  = Raise (ValueError ShapeMismatch)
  /\ combineDatasets [[1; 2; 3]] [[0; 1]] [[/ 10; 2 / 10]]
     = Ok ([1; 2; 3], [0; 1], Arr1 [/ 10; 2 / 10]).
Proof. split; reflexivity. Qed.

(** ** The staleness check *)

Lemma sqrt_lt_square (v c : R) : 0 <= v -> 0 < c -> (sqrt v < c <-> v < c * c).
Proof.
  intros Hv Hc. pose proof (sqrt_pos v) as Hs.
  pose proof (sqrt_sqrt v Hv) as Hss. split; intros H.
  - rewrite <- Hss. nra.
  - destruct (Rlt_le_dec (sqrt v) c) as [Hlt|Hge]; [exact Hlt|]. nra.
Qed.

(** C3, at a frequency list whose last three frequencies are 5.000, 5.001
    and 5.0005, with [similarFrequenciesCount = 3] and [similarityStdDev =
    0.01].  The standard deviation of the three frequencies is below 0.01,
    but the check takes the standard deviation of all twelve numbers of the
    three entries, signal to noise ratios, amplitudes and phases included,
    and lets the loop go on. *)
Theorem cutoffCriterion_mixes_columns :
  xltb (Np.std (map entry_frequency Sample.similar_frequencies)) (/ 100) = true
  /\ cutoffCriterion 3 (/ 100) Sample.similar_frequencies = true.
Proof.
  split.
  - unfold Sample.similar_frequencies, Np.std, Np.mean, xltb. cbn.
    apply Rltb_true. apply sqrt_lt_square; lra.
  - unfold cutoffCriterion, Sample.similar_frequencies, Py.slice_from,
      Py.clamp, Py.len, Np.xstd, Np.std, Np.mean, xltb.
    cbn. nats. cbn. rewrite Rltb_false; [reflexivity|].
    intros H. apply sqrt_lt_square in H; lra.
Qed.

(** ** The most common time step *)

Lemma keys_above_weaken (v w : R) (l : list (R * nat)) :
  v < w -> keys_above w l -> keys_above v l.
Proof.
  intros Hvw H. unfold keys_above in *.
  eapply Forall_impl; [|exact H]. cbn. intros p Hp. lra.
Qed.

Lemma lookupc_above (v : R) (l : list (R * nat)) :
  keys_above v l -> lookupc l v = 0%nat.
Proof.
  induction 1 as [|[u c] l Hu _ IH]; [reflexivity|].
  cbn [lookupc]. cbn in Hu. rewrite Reqb_false by lra. exact IH.
Qed.

Lemma unique_insert_above (w v : R) (l : list (R * nat)) :
  w < v -> keys_above w l -> keys_above w (unique_insert v l).
Proof.
  intros Hwv. induction 1 as [|[u c] l Hu Hl IH]; cbn [unique_insert].
  - repeat constructor. exact Hwv.
  - destruct (Rltb v u).
    + constructor; [exact Hwv|]. constructor; assumption.
    + destruct (Reqb v u); constructor; assumption.
Qed.

Lemma unique_insert_sorted (v : R) (l : list (R * nat)) :
  sorted_keys l -> sorted_keys (unique_insert v l).
Proof.
  induction l as [|[u c] l IH]; intros Hs; cbn [unique_insert].
  - cbn. split; [constructor|exact I].
  - destruct Hs as [Hu Hl]. cbn [fst] in Hu.
    destruct (Rltb v u) eqn:E1.
    + apply Rltb_spec in E1. cbn [sorted_keys fst]. split.
      * constructor; [exact E1|]. eapply keys_above_weaken; eauto.
      * split; assumption.
    + unfold Reqb. destruct (Req_dec_T v u) as [->|Hne].
      * cbn [sorted_keys fst]. split; assumption.
      * cbn [sorted_keys fst]. split; [|apply IH; exact Hl].
        apply unique_insert_above; [|exact Hu].
        assert (~ v < u) by (intro H; apply Rltb_spec in H; congruence).
        lra.
Qed.

Lemma unique_insert_lookup (v w : R) (l : list (R * nat)) :
  sorted_keys l ->
  lookupc (unique_insert v l) w
  = if Reqb w v then S (lookupc l v) else lookupc l w.
Proof.
  induction l as [|[u c] l IH]; intros Hs; cbn [unique_insert].
  - cbn [lookupc]. destruct (Reqb w v); reflexivity.
  - destruct Hs as [Hu Hl]. cbn [fst] in Hu.
    destruct (Rltb v u) eqn:E1.
    + apply Rltb_spec in E1. cbn [lookupc].
      rewrite (Reqb_false v u) by lra.
      rewrite (lookupc_above v l) by (eapply keys_above_weaken; eauto).
      destruct (Reqb w v); reflexivity.
    + unfold Reqb at 1. destruct (Req_dec_T v u) as [->|Hne].
      * cbn [lookupc]. rewrite (Reqb_true u u) by reflexivity.
        destruct (Reqb w u); reflexivity.
      * cbn [lookupc]. rewrite (Reqb_false v u) by exact Hne.
        rewrite IH by exact Hl.
        unfold Reqb. destruct (Req_dec_T w u) as [->|Hwu].
        -- destruct (Req_dec_T u v); [congruence|reflexivity].
        -- reflexivity.
Qed.

Lemma unique_counts_sorted (a : list R) : sorted_keys (unique_counts a).
Proof.
  induction a as [|v a IH]; cbn [unique_counts fold_right]; [exact I|].
  apply unique_insert_sorted. exact IH.
Qed.

(** The table counts the occurrences. *)
Lemma unique_counts_lookup (a : list R) (w : R) :
  lookupc (unique_counts a) w = occurrences a w.
Proof.
  induction a as [|v a IH]; [reflexivity|].
  change (unique_counts (v :: a)) with (unique_insert v (unique_counts a)).
  rewrite unique_insert_lookup by apply unique_counts_sorted.
  unfold occurrences in *. cbn [count_occ].
  unfold Reqb. destruct (Req_dec_T w v) as [->|Hne].
  - destruct (Req_dec_T v v); [|congruence]. rewrite <- IH. reflexivity.
  - destruct (Req_dec_T v w); [congruence|]. exact IH.
Qed.

Lemma lookupc_In (l : list (R * nat)) (u : R) (c : nat) :
  sorted_keys l -> In (u, c) l -> lookupc l u = c.
Proof.
  induction l as [|[u' c'] l IH]; intros Hs Hin; [destruct Hin|].
  destruct Hs as [Hu Hl]. cbn [fst] in Hu. cbn [lookupc].
  destruct Hin as [H|Hin].
  - injection H as -> ->. rewrite Reqb_true by reflexivity. reflexivity.
  - unfold keys_above in Hu. rewrite Forall_forall in Hu.
    specialize (Hu _ Hin). cbn in Hu.
    rewrite Reqb_false by lra. apply IH; assumption.
Qed.

Lemma lookupc_zero_or_In (l : list (R * nat)) (w : R) :
  lookupc l w = 0%nat \/ exists u, In (u, lookupc l w) l.
Proof.
  induction l as [|[u c] l IH]; [left; reflexivity|].
  cbn [lookupc]. destruct (Reqb w u).
  - right. exists u. left. reflexivity.
  - destruct IH as [IH|[u' IH]]; [left; exact IH|].
    right. exists u'. right. exact IH.
Qed.

(** [argmax_from] returns an entry of the table with a largest count. *)
Lemma argmax_from_spec (l : list (R * nat)) :
  forall best : R * nat,
    In (argmax_from best l) (best :: l)
    /\ forall q, In q (best :: l) -> (snd q <= snd (argmax_from best l))%nat.
Proof.
  induction l as [|p l IH]; intros best; cbn [argmax_from].
  - split; [left; reflexivity|]. intros q [<-|[]]. lia.
  - destruct (snd best <? snd p)%nat eqn:E.
    + apply Nat.ltb_lt in E. destruct (IH p) as [Hin Hmax]. split.
      * right. exact Hin.
      * intros q [<-|Hq]; [|apply Hmax; exact Hq].
        specialize (Hmax p (or_introl eq_refl)). lia.
    + apply Nat.ltb_ge in E. destruct (IH best) as [Hin Hmax]. split.
      * destruct Hin as [Hin|Hin]; [left; exact Hin|right; right; exact Hin].
      * intros q [<-|[<-|Hq]].
        -- apply Hmax. left. reflexivity.
        -- specialize (Hmax best (or_introl eq_refl)). lia.
        -- apply Hmax. right. exact Hq.
Qed.

Lemma unique_insert_not_nil (v : R) (l : list (R * nat)) :
  unique_insert v l <> [].
Proof.
  destruct l as [|[u c] l]; cbn [unique_insert]; [discriminate|].
  destruct (Rltb v u); [discriminate|]. destruct (Reqb v u); discriminate.
Qed.

Lemma unique_insert_counts_positive (v : R) (l : list (R * nat)) :
  Forall (fun p => (1 <= snd p)%nat) l ->
  Forall (fun p => (1 <= snd p)%nat) (unique_insert v l).
Proof.
  induction 1 as [|[u c] l Hc Hl IH]; cbn [unique_insert].
  - repeat constructor.
  - destruct (Rltb v u).
    + constructor; [cbn; lia|]. constructor; assumption.
    + destruct (Reqb v u); constructor; try assumption. cbn. lia.
Qed.

Lemma unique_counts_positive (a : list R) :
  Forall (fun p => (1 <= snd p)%nat) (unique_counts a).
Proof.
  induction a as [|v a IH]; [constructor|].
  apply unique_insert_counts_positive. exact IH.
Qed.

(** The difference of the two shifted slices is [np.diff]. *)
Lemma shifted_difference (time : list R) :
  sub_arrays (Py.slice time 1 (Py.len time))
             (Py.slice time 0 (Py.len time - 1))
  = Np.diff time.
Proof.
  destruct time as [|u time]; [reflexivity|].
  unfold Py.slice, Py.clamp, Py.len. cbn [length].
  rewrite Nat2Z.inj_succ.
  assert (E1 : (1 <? 0)%Z = false) by reflexivity.
  assert (E0 : (0 <? 0)%Z = false) by reflexivity.
  rewrite E1, E0.
  destruct (Z.succ (Z.of_nat (length time)) <? 0)%Z eqn:E2;
    [apply Z.ltb_lt in E2; lia|].
  destruct (Z.succ (Z.of_nat (length time)) - 1 <? 0)%Z eqn:E3;
    [apply Z.ltb_lt in E3; lia|].
  replace (Z.to_nat (Z.max 0 (Z.min (Z.succ (Z.of_nat (length time))) 1)))
    with 1%nat by lia.
  replace (Z.to_nat
             (Z.max 0 (Z.min (Z.succ (Z.of_nat (length time)))
                             (Z.succ (Z.of_nat (length time))))
              - Z.max 0 (Z.min (Z.succ (Z.of_nat (length time))) 1)))
    with (length time) by lia.
  replace (Z.to_nat (Z.max 0 (Z.min (Z.succ (Z.of_nat (length time))) 0)))
    with 0%nat by lia.
  replace (Z.to_nat
             (Z.max 0 (Z.min (Z.succ (Z.of_nat (length time)))
                             (Z.succ (Z.of_nat (length time)) - 1))
              - Z.max 0 (Z.min (Z.succ (Z.of_nat (length time))) 0)))
    with (length time) by lia.
  cbn [skipn]. rewrite firstn_all.
  clear. revert u. induction time as [|v time IH]; intros u; [reflexivity|].
  cbn [length firstn]. unfold sub_arrays in *. cbn [combine map fst snd Np.diff].
  f_equal. apply IH.
Qed.

(** The value [findMostCommonDiff] returns is a mode of the time steps. *)
Lemma findMostCommonDiff_mode (time : list R) :
  (2 <= length time)%nat ->
  exists mostCommon,
    findMostCommonDiff time = Ok mostCommon
    /\ In mostCommon (Np.diff time)
    /\ forall v, (occurrences (Np.diff time) v
                  <= occurrences (Np.diff time) mostCommon)%nat.
Proof.
  intros Hlen. unfold findMostCommonDiff. rewrite shifted_difference.
  set (a := Np.diff time).
  pose proof (unique_counts_sorted a) as Hs.
  pose proof (unique_counts_positive a) as Hp.
  pose proof (unique_counts_lookup a) as Hl.
  assert (Hne : unique_counts a <> []).
  { subst a. destruct time as [|u [|v t]]; cbn in Hlen; try lia.
    cbn [Np.diff unique_counts fold_right]. apply unique_insert_not_nil. }
  destruct (unique_counts a) as [|p l] eqn:E; [congruence|].
  destruct (argmax_from_spec l p) as [Hin Hmax].
  destruct (argmax_from p l) as [m c] eqn:Em. cbn [fst snd] in *.
  exists m. split; [reflexivity|].
  assert (Hc : occurrences a m = c).
  { rewrite <- Hl. apply lookupc_In; assumption. }
  split.
  - apply (count_occ_In Req_dec_T). fold (occurrences a m). rewrite Hc.
    rewrite Forall_forall in Hp. specialize (Hp _ Hin). cbn in Hp. lia.
  - intros v. rewrite Hc, <- Hl.
    destruct (lookupc_zero_or_In (p :: l) v) as [H0|[u Hu]]; [lia|].
    apply (Hmax _ Hu).
Qed.

(** C7.  For a time array with at least two samples the Nyquist frequency
    is 1 over twice the most common time step, a value among the
    consecutive time differences that no other value outnumbers; when all
    consecutive differences equal a spacing [delta] that is not zero, it is
    [1 / (2 * delta)]. *)
Theorem nyquistFrequency_mode (time flux : list R) :
  (2 <= length time)%nat ->
  exists mostCommon,
    findMostCommonDiff time = Ok mostCommon
    /\ In mostCommon (Np.diff time)
    /\ (forall v, (occurrences (Np.diff time) v
                   <= occurrences (Np.diff time) mostCommon)%nat)
    /\ nyquistFrequency (time, flux) = Ok (xdiv 1 (Fin (2 * mostCommon)))
    /\ (mostCommon <> 0 ->
        nyquistFrequency (time, flux) = Ok (Fin (1 / (2 * mostCommon))))
    /\ (forall delta,
          delta <> 0 -> (forall v, In v (Np.diff time) -> v = delta) ->
          nyquistFrequency (time, flux) = Ok (Fin (1 / (2 * delta)))).
Proof.
  intros Hlen.
  destruct (findMostCommonDiff_mode time Hlen) as (m & Hm & Hin & Hmax).
  exists m.
  assert (Hny : nyquistFrequency (time, flux) = Ok (xdiv 1 (Fin (2 * m)))).
  { unfold nyquistFrequency. cbn [fst]. rewrite Hm. reflexivity. }
  assert (Hfin : m <> 0 -> nyquistFrequency (time, flux) = Ok (Fin (1 / (2 * m)))).
  { intros Hm0. rewrite Hny. unfold xdiv. rewrite Reqb_false by lra. reflexivity. }
  repeat split; try assumption.
  intros delta Hd Hall. rewrite <- (Hall m Hin). apply Hfin.
  rewrite (Hall m Hin). exact Hd.
Qed.

Lemma nyquistFrequency_mode_witness :
  nyquistFrequency ([0; 1; 2; 3], [0; 0; 0; 0]) = Ok (Fin (1 / (2 * 1))).
Proof.
  destruct (nyquistFrequency_mode [0; 1; 2; 3] [0; 0; 0; 0])
    as (m & _ & _ & _ & _ & _ & Huniform).
  - cbn. lia.
  - apply Huniform; [lra|].
    cbn. intros v [<-|[<-|[<-|[]]]]; lra.
Defined.

(** ** The amplitude spectrum *)

Lemma slice_from_1 {A : Type} (a : list A) : Py.slice_from a 1 = tl a.
Proof.
  destruct a as [|v a]; [reflexivity|].
  unfold Py.slice_from, Py.clamp, Py.len. cbn [length].
  rewrite Nat2Z.inj_succ.
  replace (Z.to_nat
             (Z.max 0 (Z.min (Z.succ (Z.of_nat (length a)))
                             (if (1 <? 0)%Z
                              then (1 + Z.succ (Z.of_nat (length a)))%Z
                              else 1%Z))))
    with 1%nat by (cbn; lia).
  reflexivity.
Qed.

Lemma mask_map_filter {A : Type} (g : A -> bool) (a : list A) :
  Py.mask a (map g a) = filter g a.
Proof.
  induction a as [|v a IH]; [reflexivity|].
  cbn [map Py.mask filter]. rewrite IH. reflexivity.
Qed.

Lemma mask_length {A B : Type} (a : list A) (b : list B) (m : list bool) :
  length a = length b -> length (Py.mask a m) = length (Py.mask b m).
Proof.
  revert b m. induction a as [|v a IH]; intros [|w b] m Hlen;
    try discriminate; [reflexivity|].
  destruct m as [|[|] m]; cbn [Py.mask length]; [reflexivity| |];
    rewrite (IH b m) by (cbn in Hlen; lia); reflexivity.
Qed.

Lemma nyquistFrequency_unit_steps (flux : list R) :
  nyquistFrequency ([0; 1; 2; 3], flux) = Ok (Fin (/ 2)).
Proof.
  unfold nyquistFrequency, findMostCommonDiff. cbn [fst].
  rewrite shifted_difference. cbn. rltb. cbn. rltb. cbn.
  unfold xdiv. rltb. do 2 f_equal. lra.
Qed.

Section AmplitudeSpectrumFacts.

Variable autopower : lightcurve -> R -> R -> Z -> res (list R * list R).

(** What [calculateAmplitudeSpectrum] keeps of the grid of the
    periodogram: the frequencies after the first that lie strictly below
    [frequencyBoundary[1]], and as many powers.  The maximum it asks of the
    periodogram is the smaller of [frequencyBoundary[1]] and the Nyquist
    frequency. *)
Lemma calculateAmplitudeSpectrum_filter (data : lightcurve)
  (frequencyBoundary : R * R) (nyquist : R) (f0 p0 : list R) :
  fst frequencyBoundary <= snd frequencyBoundary ->
  nyquistFrequency data = Ok (Fin nyquist) ->
  autopower data (fst frequencyBoundary)
    (Rmin (snd frequencyBoundary) nyquist) 100%Z = Ok (f0, p0) ->
  length f0 = length p0 ->
  exists f p,
    calculateAmplitudeSpectrum autopower data frequencyBoundary = Ok (f, p)
    /\ length f = length p
    /\ f = filter (fun v => Rltb v (snd frequencyBoundary)) (tl f0)
    /\ Forall (fun v => v < snd frequencyBoundary) f.
Proof.
  intros Hb Hny Hauto Hlen.
  unfold calculateAmplitudeSpectrum.
  rewrite Rltb_false by lra. rewrite Hny. cbn [bind].
  assert (Hmax : (if Rltb nyquist (snd frequencyBoundary)
                  then nyquist else snd frequencyBoundary)
                 = Rmin (snd frequencyBoundary) nyquist).
  { unfold Rltb, Rmin.
    destruct (Rlt_dec nyquist (snd frequencyBoundary));
      destruct (Rle_dec (snd frequencyBoundary) nyquist); lra. }
  rewrite Hmax, Hauto. cbn [bind]. rewrite !slice_from_1.
  set (scale := fun v => sqrt (4 / INR (length (fst data))) * sqrt v).
  assert (Hl : length (tl (map scale p0)) = length (tl f0)).
  { destruct f0; destruct p0; cbn in *; try discriminate; [reflexivity|].
    rewrite length_map. lia. }
  rewrite Hl, Nat.eqb_refl. cbn [negb].
  do 2 eexists. split; [reflexivity|].
  rewrite mask_map_filter.
  split; [|split; [reflexivity|]].
  - rewrite <- mask_map_filter. symmetry. apply mask_length. exact Hl.
  - apply Forall_forall. intros v Hv. apply filter_In in Hv.
    destruct Hv as [_ Hv]. apply Rltb_spec. exact Hv.
Qed.

End AmplitudeSpectrumFacts.

Lemma sqrt_scale_unit : sqrt (4 / INR 4) * sqrt 1 = 1.
Proof.
  replace (4 / INR 4) with 1 by (cbn; lra). rewrite sqrt_1. lra.
Qed.

Lemma calculateAmplitudeSpectrum_two_point_grid :
  calculateAmplitudeSpectrum Sample.two_point_grid Sample.unit_steps
    (498 / 1000, 50)
  = Ok ([498 / 1000 + / 300], [1]).
Proof.
  unfold calculateAmplitudeSpectrum, Sample.unit_steps. cbn [fst snd].
  rewrite nyquistFrequency_unit_steps. rltb. cbn [bind Sample.two_point_grid].
  rewrite !slice_from_1. cbn [map tl length Nat.eqb negb Py.mask].
  rltb. rewrite sqrt_scale_unit. reflexivity.
Qed.

(** C6, on four samples one time unit apart with the boundary
    (0.498, 50).  The Nyquist frequency is 1/2, below the requested maximum
    of 50, and the periodogram is asked for the range from 0.498 to 1/2;
    its grid of step 1/300 has the two points 0.498 and 0.498 + 1/300.  The
    first is dropped.  The second is above the Nyquist frequency, but the
    filter of lines 45 and 46 compares with the requested maximum 50 and
    not with the maximum cut off at Nyquist, so it is returned: a frequency
    outside [boundary.min, min (boundary.max, nyquist)]. *)
Theorem calculateAmplitudeSpectrum_above_nyquist :
  nyquistFrequency Sample.unit_steps = Ok (Fin (/ 2))
  /\ calculateAmplitudeSpectrum Sample.two_point_grid Sample.unit_steps
       (498 / 1000, 50)
     = Ok ([498 / 1000 + / 300], [1])
  /\ Rmin 50 (/ 2) < 498 / 1000 + / 300.
Proof.
  split; [apply nyquistFrequency_unit_steps|].
  split; [exact calculateAmplitudeSpectrum_two_point_grid|].
  rewrite Rmin_right by lra. lra.
Qed.

(** ** A run of the extraction loop on the sample inputs *)

Lemma sqrt_of_square (v w : R) : 0 <= w -> w * w = v -> sqrt v = w.
Proof. intros Hw H. apply sqrt_lem_1; [nra|exact Hw|exact H]. Qed.

Ltac rsqrt :=
  rewrite ?sqrt_0, ?sqrt_1, ?(sqrt_of_square 4 2), ?(sqrt_of_square 16 4),
    ?(sqrt_of_square 25 5) by lra.

Lemma calculateAmplitudeSpectrum_fading_peak (flux : list R) :
  calculateAmplitudeSpectrum Sample.fading_peak ([0; 1; 2; 3], flux) (0, 50)
  = Ok (if Reqb (hd 0 flux) 0 then Sample.strong_peak else Sample.weak_peak).
Proof.
  unfold calculateAmplitudeSpectrum. cbn [fst snd].
  rewrite nyquistFrequency_unit_steps. rltb.
  unfold Sample.fading_peak. cbn [bind snd].
  rewrite !slice_from_1. unfold Sample.grid.
  destruct (Reqb (hd 0 flux) 0);
    cbn [map tl length Nat.eqb negb];
    replace (4 / INR 4) with 1 by (cbn; lra); rsqrt;
    cbn [Py.mask]; rltb; cbn [Py.mask]; rewrite !Rmult_1_l; reflexivity.
Qed.

Lemma findNextMinimas_weak_peak :
  findNextMinimas (snd Sample.weak_peak) = Ok (3, 5)%Z.
Proof. unfold Sample.weak_peak. cbn [snd]. run_minimas. reflexivity. Qed.

Lemma computeSignalToNoise_weak_peak :
  computeSignalToNoise Sample.weak_peak (27 / 200) = Ok (Fin (8 / 3)).
Proof.
  unfold computeSignalToNoise. rewrite findNextMinimas_weak_peak.
  cbn [bind fst snd Sample.weak_peak]. rewrite mean_diff_grid.
  rltb. rewrite (trunc_between _ 2) by (cbn; lra).
  cbn [bind]. run_snr. do 2 f_equal. lra.
Qed.

Lemma findMaxPowerFrequency_strong_peak :
  findMaxPowerFrequency Sample.strong_peak = Ok (5, 5 / 20).
Proof.
  unfold findMaxPowerFrequency, Sample.strong_peak, Sample.grid, Np.max,
    near_max_mask.
  cbn. rmax. rltb. reflexivity.
Qed.

Lemma findMaxPowerFrequency_weak_peak :
  findMaxPowerFrequency Sample.weak_peak = Ok (2, 5 / 20).
Proof.
  unfold findMaxPowerFrequency, Sample.weak_peak, Sample.grid, Np.max,
    near_max_mask.
  cbn. rmax. rltb. reflexivity.
Qed.

Lemma correct_sign_fit_constant : correct_sign (1, 2, PI / 2) = (1, 2, PI / 2).
Proof. unfold correct_sign. rltb. reflexivity. Qed.

(** The first flux value after the constant fit is taken out of a light
    curve that starts at time 0 with flux 0. *)
Lemma residual_head (time flux : list R) :
  hd 0 (snd (residual (0 :: time, 0 :: flux) (1, 2, PI / 2))) = -1.
Proof.
  unfold residual, sub_arrays, sin_model. cbn [fst snd map combine hd].
  replace (2 * PI * 2 * 0 + PI / 2) with (PI / 2) by lra.
  rewrite sin_PI2. lra.
Qed.

Lemma round_sample_first :
  round Sample.fading_peak Sample.fit_constant 3 (/ 100) (27 / 200)
    Sample.keywords (initial_locals Sample.unit_steps)
  = Ok ({| snr := Fin (20 / 3); fit := Some (1, 2, PI / 2);
           data := residual Sample.unit_steps (1, 2, PI / 2);
           frequencyList := []; amp := Some Sample.strong_peak;
           f_out := Some Sample.grid |}, true).
Proof.
  unfold round, initial_locals, Sample.unit_steps.
  cbn [fit frequencyList data snr f_out Sample.keywords frequencyRange mode bind].
  rewrite calculateAmplitudeSpectrum_fading_peak. cbn [hd].
  rewrite Reqb_true by reflexivity. cbn [bind].
  rewrite computeSignalToNoise_strong_peak. cbn [bind].
  rewrite findAndRemoveMaxFrequency_eq, findMaxPowerFrequency_strong_peak.
  cbn [bind Sample.fit_constant]. rewrite correct_sign_fit_constant.
  reflexivity.
Qed.

Lemma round_sample_second :
  round Sample.fading_peak Sample.fit_constant 3 (/ 100) (27 / 200)
    Sample.keywords
    {| snr := Fin (20 / 3); fit := Some (1, 2, PI / 2);
       data := residual Sample.unit_steps (1, 2, PI / 2);
       frequencyList := []; amp := Some Sample.strong_peak;
       f_out := Some Sample.grid |}
  = Ok ({| snr := Fin (8 / 3); fit := Some (1, 2, PI / 2);
           data := residual (residual Sample.unit_steps (1, 2, PI / 2))
                     (1, 2, PI / 2);
           frequencyList := [(2, Fin (20 / 3), 1, PI / 2)];
           amp := Some Sample.weak_peak;
           f_out := Some Sample.grid |}, true).
Proof.
  unfold round.
  cbn [fit frequencyList data snr f_out Sample.keywords frequencyRange mode
       bind app].
  pose proof (residual_head [1; 2; 3] [0; 0; 0]) as Hhd.
  change (0 :: [1; 2; 3], 0 :: [0; 0; 0]) with Sample.unit_steps in Hhd.
  set (d1 := residual Sample.unit_steps (1, 2, PI / 2)) in *.
  assert (Hd1 : d1 = ([0; 1; 2; 3], snd d1)) by reflexivity.
  rewrite Hd1 at 1. rewrite calculateAmplitudeSpectrum_fading_peak.
  rewrite Hhd. rewrite Reqb_false by lra. cbn [bind].
  rewrite computeSignalToNoise_weak_peak. cbn [bind].
  rewrite findAndRemoveMaxFrequency_eq, findMaxPowerFrequency_weak_peak.
  cbn [bind Sample.fit_constant]. rewrite correct_sign_fit_constant.
  reflexivity.
Qed.

Lemma extraction_loop_sample :
  extraction_loop Sample.fading_peak Sample.fit_constant 3 (/ 100) 4
    (27 / 200) Sample.keywords 2 (initial_locals Sample.unit_steps)
  = Ok {| snr := Fin (8 / 3); fit := Some (1, 2, PI / 2);
          data := residual (residual Sample.unit_steps (1, 2, PI / 2))
                    (1, 2, PI / 2);
          frequencyList := [(2, Fin (20 / 3), 1, PI / 2)];
          amp := Some Sample.weak_peak;
          f_out := Some Sample.grid |}.
Proof.
  cbn [extraction_loop].
  change (snr (initial_locals Sample.unit_steps)) with (Fin 100).
  cbn [xgtb]. rltb. rewrite round_sample_first. cbn [bind snr xgtb]. rltb.
  rewrite round_sample_second. cbn [bind snr xgtb]. rltb. reflexivity.
Qed.

Lemma recursiveFrequencyFinder_sample :
  recursiveFrequencyFinder Sample.fading_peak Sample.fit_constant 3 (/ 100) 4
    (27 / 200) Sample.keywords 2 Sample.unit_steps
  = Ok ([(2, Fin (20 / 3), 1, PI / 2)], Some Sample.grid).
Proof.
  unfold recursiveFrequencyFinder. rewrite extraction_loop_sample.
  reflexivity.
Qed.

Section ExtractionLoopResults.

Variable autopower : lightcurve -> R -> R -> Z -> res (list R * list R).
Variable curve_fit : lightcurve -> params -> res params.
Variable similarFrequenciesCount : Z.
Variable similarityStdDev : R.
Variable snrCriterion : R.
Variable windowSize : R.
Variable kw : kwargs.

(** What a round appends is the fit of the round before. *)
Lemma round_appends_previous_fit (st st' : locals) (go_on : bool) :
  round autopower curve_fit similarFrequenciesCount similarityStdDev
    windowSize kw st = Ok (st', go_on) ->
  frequencyList st'
  = match fit st with
    | Some (a, f, ph) => frequencyList st ++ [(f, snr st, a, ph)]
    | None => frequencyList st
    end.
Proof.
  unfold round.
  destruct (fit st) as [[[a f] ph]|];
    (destruct (frequencyRange kw); cbn [bind]; try discriminate;
     destruct (calculateAmplitudeSpectrum _ _ _); cbn [bind];
     try discriminate;
     destruct (computeSignalToNoise _ _); cbn [bind]; try discriminate;
     destruct (findAndRemoveMaxFrequency _ _ _) as [[q d]| |];
     cbn [bind]; try discriminate;
     intros H; injection H as <- _; reflexivity).
Qed.

Lemma round_binds_fit (st st' : locals) (go_on : bool) :
  round autopower curve_fit similarFrequenciesCount similarityStdDev
    windowSize kw st = Ok (st', go_on) ->
  fit st' <> None.
Proof.
  unfold round.
  destruct (fit st) as [[[a f] ph]|];
    (destruct (frequencyRange kw); cbn [bind]; try discriminate;
     destruct (calculateAmplitudeSpectrum _ _ _); cbn [bind];
     try discriminate;
     destruct (computeSignalToNoise _ _); cbn [bind]; try discriminate;
     destruct (findAndRemoveMaxFrequency _ _ _) as [[q d]| |];
     cbn [bind]; try discriminate;
     intros H; injection H as <- _; cbn [fit]; discriminate).
Qed.

(** A loop that returns has run a sequence of rounds. *)
Lemma extraction_loop_run (fuel : nat) :
  forall st st' : locals,
    extraction_loop autopower curve_fit similarFrequenciesCount
      similarityStdDev snrCriterion windowSize kw fuel st = Ok st' ->
    exists sts,
      run autopower curve_fit similarFrequenciesCount similarityStdDev
        snrCriterion windowSize kw st sts st'.
Proof.
  induction fuel as [|fuel IH]; intros st st'; cbn [extraction_loop];
    destruct (xgtb (snr st) snrCriterion) eqn:Hsnr; try discriminate;
    try (intros H; injection H as <-; exists []; constructor; exact Hsnr).
  destruct (round autopower curve_fit similarFrequenciesCount
              similarityStdDev windowSize kw st) as [[st1 go_on]| |] eqn:Hr;
    cbn [bind]; try discriminate.
  destruct go_on.
  - intros H. destruct (IH _ _ H) as [sts Hrun].
    exists (st1 :: sts). eapply run_go; eassumption.
  - intros H. injection H as <-. exists [st1]. apply run_break; assumption.
Qed.

(** A sequence of rounds is what the loop does, given a round of fuel for
    each. *)
Lemma run_extraction_loop (st st' : locals) (sts : list locals) :
  run autopower curve_fit similarFrequenciesCount similarityStdDev
    snrCriterion windowSize kw st sts st' ->
  extraction_loop autopower curve_fit similarFrequenciesCount
    similarityStdDev snrCriterion windowSize kw (length sts) st = Ok st'.
Proof.
  induction 1 as [st Hsnr|st st' Hsnr Hr|st st' sts st'' Hsnr Hr _ IH];
    cbn [length extraction_loop]; rewrite Hsnr; try reflexivity;
    rewrite Hr; cbn [bind]; [reflexivity|exact IH].
Qed.

Lemma last_cons {A : Type} (l : list A) :
  forall a d : A, last (a :: l) d = last l a.
Proof.
  induction l as [|b l IH]; intros a d; [reflexivity|].
  change (last (a :: b :: l) d) with (last (b :: l) d).
  rewrite (IH b d), (IH b a). reflexivity.
Qed.

(** The list after a run: the list before it and the tuples of the fits
    held before each round, the first to the last.  The fit of the last
    round is held after it, and not in the list. *)
Lemma run_frequencyList (st st' : locals) (sts : list locals) :
  run autopower curve_fit similarFrequenciesCount similarityStdDev
    snrCriterion windowSize kw st sts st' ->
  frequencyList st'
  = frequencyList st ++ flat_map entry_of (removelast (st :: sts))
  /\ st' = last sts st
  /\ Forall (fun s => fit s <> None) sts.
Proof.
  induction 1 as [st Hsnr|st st' Hsnr Hr|st st' sts st'' Hsnr Hr Hrun IH].
  - cbn. rewrite app_nil_r. repeat split. constructor.
  - pose proof (round_appends_previous_fit _ _ _ Hr) as Hl.
    pose proof (round_binds_fit _ _ _ Hr) as Hf.
    cbn [removelast flat_map last]. rewrite app_nil_r.
    split; [|split; [reflexivity|repeat constructor; exact Hf]].
    rewrite Hl. unfold entry_of. destruct (fit st) as [[[a f] ph]|];
      [reflexivity|rewrite app_nil_r; reflexivity].
  - pose proof (round_appends_previous_fit _ _ _ Hr) as Hl.
    pose proof (round_binds_fit _ _ _ Hr) as Hf.
    destruct IH as (IHl & IHlast & IHfits).
    split; [|split].
    + rewrite IHl, Hl.
      change (removelast (st :: st' :: sts))
        with (st :: removelast (st' :: sts)).
      cbn [flat_map]. rewrite app_assoc. f_equal.
      unfold entry_of. destruct (fit st) as [[[a f] ph]|];
        [reflexivity|rewrite app_nil_r; reflexivity].
    + rewrite IHlast. symmetry. apply last_cons.
    + constructor; assumption.
Qed.

Lemma flat_map_entry_of_length (sts : list locals) :
  Forall (fun s => fit s <> None) sts ->
  length (flat_map entry_of sts) = length sts.
Proof.
  induction 1 as [|s sts Hs _ IH]; [reflexivity|].
  cbn [flat_map length]. rewrite length_app, IH. unfold entry_of.
  destruct (fit s) as [[[a f] ph]|]; [reflexivity|congruence].
Qed.

Lemma removelast_Forall {A : Type} (P : A -> Prop) (l : list A) :
  Forall P l -> Forall P (removelast l).
Proof.
  induction 1 as [|a l Ha Hl IH]; [constructor|].
  destruct l as [|b l]; [constructor|].
  change (removelast (a :: b :: l)) with (a :: removelast (b :: l)).
  constructor; assumption.
Qed.

Lemma removelast_length {A : Type} (l : list A) :
  length (removelast l) = pred (length l).
Proof.
  induction l as [|a l IH]; [reflexivity|].
  destruct l as [|b l]; [reflexivity|].
  change (removelast (a :: b :: l)) with (a :: removelast (b :: l)).
  cbn [length] in *. rewrite IH. reflexivity.
Qed.

(** C2, amended.  A run of [recursiveFrequencyFinder] that returns has made
    a sequence of rounds, each of which fits a frequency.  The tuple
    (frequency, SNR, amplitude, phase) of a round's fit is appended at the
    start of the round after it, so the returned list holds the tuples of
    all rounds but the last, in order, one entry for each: the fit of the
    round in which the loop stops is left out.  Every entry of the list has
    a signal to noise ratio above [snrCriterion]. *)
Theorem recursiveFrequencyFinder_record (fuel : nat)
  (data : lightcurve) (l : list entry) (f : option (list R)) :
  recursiveFrequencyFinder autopower curve_fit similarFrequenciesCount
    similarityStdDev snrCriterion windowSize kw fuel data = Ok (l, f) ->
  exists (sts : list locals) (st' : locals),
    run autopower curve_fit similarFrequenciesCount similarityStdDev
      snrCriterion windowSize kw (initial_locals data) sts st'
    /\ st' = last sts (initial_locals data)
    /\ Forall (fun s => fit s <> None) sts
    /\ l = flat_map entry_of (removelast sts)
    /\ length l = pred (length sts)
    /\ significant snrCriterion l.
Proof.
  unfold recursiveFrequencyFinder.
  destruct (Py.getitem (fst data) 0); cbn [bind]; try discriminate.
  destruct (Np.max (fst data)); cbn [bind]; try discriminate.
  destruct (extraction_loop _ _ _ _ _ _ _ fuel (initial_locals data))
    as [st| |] eqn:E; cbn [bind]; try discriminate.
  intros H.
  assert (Hl : l = frequencyList st).
  { destruct (mode kw) as [[| |]|]; cbn [bind] in H;
      try (injection H as <- _; reflexivity).
    destruct (amp st); cbn [bind] in H; try discriminate.
    injection H as <- _; reflexivity. }
  clear H. subst l.
  assert (Hsig : significant snrCriterion (frequencyList st)).
  { eapply extraction_loop_significant; [|exact E]. constructor. }
  destruct (extraction_loop_run _ _ _ E) as [sts Hrun].
  destruct (run_frequencyList _ _ _ Hrun) as (Hfl & Hlast & Hfits).
  exists sts, st.
  assert (Hlist : frequencyList st = flat_map entry_of (removelast sts)).
  { rewrite Hfl. cbn [initial_locals frequencyList app].
    destruct sts as [|s1 sts]; [reflexivity|].
    change (removelast (initial_locals data :: s1 :: sts))
      with (initial_locals data :: removelast (s1 :: sts)).
    reflexivity. }
  repeat split; try assumption.
  rewrite Hlist, flat_map_entry_of_length, removelast_length;
    [reflexivity|apply removelast_Forall; exact Hfits].
Qed.

End ExtractionLoopResults.

Lemma recursiveFrequencyFinder_record_witness :
  exists (sts : list locals) (st' : locals),
    run Sample.fading_peak Sample.fit_constant 3 (/ 100) 4 (27 / 200)
      Sample.keywords (initial_locals Sample.unit_steps) sts st'
    /\ st' = last sts (initial_locals Sample.unit_steps)
    /\ Forall (fun s => fit s <> None) sts
    /\ [(2, Fin (20 / 3), 1, PI / 2)] = flat_map entry_of (removelast sts)
    /\ length [(2, Fin (20 / 3), 1, PI / 2)] = pred (length sts)
    /\ significant 4 [(2, Fin (20 / 3), 1, PI / 2)].
Proof.
  apply (recursiveFrequencyFinder_record
           Sample.fading_peak Sample.fit_constant 3 (/ 100) 4 (27 / 200)
           Sample.keywords 2 Sample.unit_steps
           [(2, Fin (20 / 3), 1, PI / 2)] (Some Sample.grid)).
  exact recursiveFrequencyFinder_sample.
Defined.

(** C2 as stated fails on the sample run with [snrCriterion = 4].  The
    first round finds a ratio of 20/3 and the second a ratio of 8/3, at
    which the loop stops.  Both rounds fit a frequency, but the returned
    list has the entry of the first round only: the fit of the round at the
    boundary is in the variable [fit] and not in the list. *)
Lemma recursiveFrequencyFinder_drops_last_fit :
  (exists st,
     extraction_loop Sample.fading_peak Sample.fit_constant 3 (/ 100) 4
       (27 / 200) Sample.keywords 2 (initial_locals Sample.unit_steps) = Ok st
     /\ snr st = Fin (8 / 3)
     /\ fit st = Some (1, 2, PI / 2)
     /\ frequencyList st = [(2, Fin (20 / 3), 1, PI / 2)])
  /\ recursiveFrequencyFinder Sample.fading_peak Sample.fit_constant 3 (/ 100)
       4 (27 / 200) Sample.keywords 2 Sample.unit_steps
     = Ok ([(2, Fin (20 / 3), 1, PI / 2)], Some Sample.grid).
Proof.
  split; [|exact recursiveFrequencyFinder_sample].
  eexists. split; [exact extraction_loop_sample|]. repeat split.
Qed.

Lemma first_items_nonempty (data : lightcurve) :
  fst data <> [] ->
  exists a m, Py.getitem (fst data) 0 = Ok a /\ Np.max (fst data) = Ok m.
Proof.
  intros Hne. destruct (fst data) as [|v t]; [congruence|].
  exists v, (fold_left Rmax t v). split; reflexivity.
Qed.

Section FirstRound.

Variable autopower : lightcurve -> R -> R -> Z -> res (list R * list R).
Variable curve_fit : lightcurve -> params -> res params.
Variable similarFrequenciesCount : Z.
Variable similarityStdDev : R.
Variable snrCriterion : R.
Variable windowSize : R.
Variable kw : kwargs.

(** A round binds the frequency row of the spectrogram if it was unbound
    and no fit had been made, and never unbinds it. *)
Lemma round_f_out (st st' : locals) (go_on : bool) :
  fit st = None \/ f_out st <> None ->
  round autopower curve_fit similarFrequenciesCount similarityStdDev
    windowSize kw st = Ok (st', go_on) ->
  f_out st' <> None.
Proof.
  intros Hinv. unfold round.
  destruct (fit st) as [[[a f] ph]|];
    (destruct (frequencyRange kw); cbn [bind]; try discriminate;
     destruct (calculateAmplitudeSpectrum _ _ _); cbn [bind];
     try discriminate;
     destruct (computeSignalToNoise _ _); cbn [bind]; try discriminate;
     destruct (findAndRemoveMaxFrequency _ _ _) as [[q d]| |];
     cbn [bind]; try discriminate;
     intros H; injection H as <- _; cbn [f_out]).
  - destruct Hinv as [Hf|Hf]; [discriminate|].
    destruct (mode kw) as [[| |]|]; try discriminate; exact Hf.
  - discriminate.
Qed.

Lemma extraction_loop_f_out (fuel : nat) :
  forall st st' : locals,
    f_out st <> None ->
    extraction_loop autopower curve_fit similarFrequenciesCount
      similarityStdDev snrCriterion windowSize kw fuel st = Ok st' ->
    f_out st' <> None.
Proof.
  induction fuel as [|fuel IH]; intros st st' Hf; cbn [extraction_loop];
    destruct (xgtb (snr st) snrCriterion);
    try discriminate; try (intros H; injection H as <-; exact Hf).
  destruct (round autopower curve_fit similarFrequenciesCount
              similarityStdDev windowSize kw st) as [[st1 go_on]| |] eqn:Hr;
    cbn [bind]; try discriminate.
  pose proof (round_f_out st st1 go_on (or_intror Hf) Hr) as Hf1.
  destruct go_on.
  - apply IH. exact Hf1.
  - intros H. injection H as <-. exact Hf1.
Qed.

(** C8, amended.  The loop starts with a signal to noise ratio of 100.
    When [snrCriterion] is below 100 the first round is run before any stop
    decision: the loop is its first round followed by the rest, a loop that
    returns has run at least one round, a run of the function that returns
    has computed a spectrum, and on a light curve with samples an exception
    of the first round is the exception of the function.  When
    [snrCriterion] is 100 or more no round is run: the loop returns the
    variables as they were set before it, and on a light curve with samples
    the function returns an empty list and no spectrum, except in mode
    ['Normal'], where it raises [UnboundLocalError] on the spectrum that
    was never computed. *)
Theorem extraction_loop_first_round (data : lightcurve) :
  (snrCriterion < 100 ->
   (forall fuel : nat,
      extraction_loop autopower curve_fit similarFrequenciesCount
        similarityStdDev snrCriterion windowSize kw (S fuel)
        (initial_locals data)
      = '(st', go_on) <-
          round autopower curve_fit similarFrequenciesCount
            similarityStdDev windowSize kw (initial_locals data) ;;
        if go_on
        then extraction_loop autopower curve_fit similarFrequenciesCount
               similarityStdDev snrCriterion windowSize kw fuel st'
        else Ok st')
   /\ (forall (fuel : nat) (l : list entry) (f : option (list R)),
         recursiveFrequencyFinder autopower curve_fit
           similarFrequenciesCount similarityStdDev snrCriterion
           windowSize kw fuel data = Ok (l, f) ->
         f <> None)
   /\ (forall (fuel : nat) (st : locals),
         extraction_loop autopower curve_fit similarFrequenciesCount
           similarityStdDev snrCriterion windowSize kw fuel
           (initial_locals data) = Ok st ->
         exists (st1 : locals) (sts : list locals),
           run autopower curve_fit similarFrequenciesCount similarityStdDev
             snrCriterion windowSize kw (initial_locals data)
             (st1 :: sts) st)
   /\ (forall (fuel : nat) (e : exn),
         fst data <> [] ->
         round autopower curve_fit similarFrequenciesCount
           similarityStdDev windowSize kw (initial_locals data) = Raise e ->
         recursiveFrequencyFinder autopower curve_fit
           similarFrequenciesCount similarityStdDev snrCriterion
           windowSize kw (S fuel) data = Raise e))
  /\ (100 <= snrCriterion ->
      (forall fuel : nat,
         extraction_loop autopower curve_fit similarFrequenciesCount
           similarityStdDev snrCriterion windowSize kw fuel
           (initial_locals data)
         = Ok (initial_locals data))
      /\ (forall fuel : nat,
            fst data <> [] ->
            recursiveFrequencyFinder autopower curve_fit
              similarFrequenciesCount similarityStdDev snrCriterion
              windowSize kw fuel data
            = match mode kw with
              | Some Normal => Raise UnboundLocalError
              | _ => Ok ([], None)
              end)).
Proof.
  split.
  - intros Hlt.
    assert (Hgo : xgtb (snr (initial_locals data)) snrCriterion = true).
    { cbn [initial_locals snr xgtb]. apply Rltb_true. exact Hlt. }
    split; [|split; [|split]].
    + intros fuel. cbn [extraction_loop]. rewrite Hgo. reflexivity.
    + intros fuel l f. unfold recursiveFrequencyFinder.
      destruct (Py.getitem (fst data) 0); cbn [bind]; try discriminate.
      destruct (Np.max (fst data)); cbn [bind]; try discriminate.
      destruct fuel as [|fuel]; cbn [extraction_loop]; rewrite Hgo;
        [discriminate|].
      destruct (round autopower curve_fit similarFrequenciesCount
                  similarityStdDev windowSize kw (initial_locals data))
        as [[st1 go_on]| |] eqn:Hr; cbn [bind]; try discriminate.
      pose proof (round_f_out (initial_locals data) st1 go_on
                    (or_introl eq_refl) Hr) as Hf1.
      assert (Hend : forall st,
                 (if go_on
                  then extraction_loop autopower curve_fit
                         similarFrequenciesCount similarityStdDev
                         snrCriterion windowSize kw fuel st1
                  else Ok st1) = Ok st ->
                 f_out st <> None).
      { intros st. destruct go_on.
        - apply extraction_loop_f_out. exact Hf1.
        - intros H. injection H as <-. exact Hf1. }
      destruct (if go_on
                then extraction_loop autopower curve_fit
                       similarFrequenciesCount similarityStdDev
                       snrCriterion windowSize kw fuel st1
                else Ok st1) as [st| |]; cbn [bind]; try discriminate.
      specialize (Hend st eq_refl).
      destruct (mode kw) as [[| |]|]; cbn [bind];
        try (intros H; injection H as _ <-; exact Hend).
      destruct (amp st); cbn [bind]; try discriminate.
      intros H; injection H as _ <-; exact Hend.
    + intros fuel st Hloop.
      destruct (extraction_loop_run _ _ _ _ _ _ _ _ _ _ Hloop) as [sts Hrun].
      destruct sts as [|st1 sts]; [|eauto].
      inversion Hrun as [? Hstop| |]; subst. congruence.
    + intros fuel e Hne Hraise. unfold recursiveFrequencyFinder.
      destruct (first_items_nonempty data Hne) as (a & m & -> & ->).
      cbn [bind extraction_loop]. rewrite Hgo, Hraise. reflexivity.
  - intros Hge.
    assert (Hloop : forall fuel : nat,
               extraction_loop autopower curve_fit similarFrequenciesCount
                 similarityStdDev snrCriterion windowSize kw fuel
                 (initial_locals data)
               = Ok (initial_locals data)).
    { intros fuel.
      assert (Hstop : xgtb (snr (initial_locals data)) snrCriterion = false).
      { cbn [initial_locals snr xgtb]. apply Rltb_false. lra. }
      destruct fuel; cbn [extraction_loop]; rewrite Hstop; reflexivity. }
    split; [exact Hloop|].
    intros fuel Hne. unfold recursiveFrequencyFinder.
    destruct (first_items_nonempty data Hne) as (a & m & -> & ->).
    cbn [bind]. rewrite Hloop.
    cbn [bind initial_locals amp frequencyList f_out].
    destruct (mode kw) as [[| |]|]; reflexivity.
Qed.

End FirstRound.

Lemma extraction_loop_first_round_witness :
  extraction_loop Sample.fading_peak Sample.fit_constant 3 (/ 100) 4
    (27 / 200) Sample.keywords 2 (initial_locals Sample.unit_steps)
  = '(st', go_on) <-
      round Sample.fading_peak Sample.fit_constant 3 (/ 100) (27 / 200)
        Sample.keywords (initial_locals Sample.unit_steps) ;;
    if go_on
    then extraction_loop Sample.fading_peak Sample.fit_constant 3 (/ 100) 4
           (27 / 200) Sample.keywords 1 st'
    else Ok st'.
Proof.
  apply (proj1 (extraction_loop_first_round
                  Sample.fading_peak Sample.fit_constant 3 (/ 100) 4
                  (27 / 200) Sample.keywords Sample.unit_steps)).
  lra.
Defined.

(** C8 as stated fails for [snrCriterion = 100]: the starting ratio of 100
    does not exceed it, no round is run, and the function returns an empty
    list and no spectrum, or, in mode ['Normal'], raises on the spectrum
    that was never computed. *)
Lemma recursiveFrequencyFinder_no_round :
  extraction_loop Sample.fading_peak Sample.fit_constant 3 (/ 100) 100
    (27 / 200) Sample.keywords 5 (initial_locals Sample.unit_steps)
  = Ok (initial_locals Sample.unit_steps)
  /\ recursiveFrequencyFinder Sample.fading_peak Sample.fit_constant 3 (/ 100)
       100 (27 / 200) Sample.keywords 5 Sample.unit_steps
     = Ok ([], None)
  /\ recursiveFrequencyFinder Sample.fading_peak Sample.fit_constant 3 (/ 100)
       100 (27 / 200)
       {| mode := Some Normal; frequencyRange := Some (0, 50) |} 5
       Sample.unit_steps
     = Raise UnboundLocalError.
Proof.
  assert (H : forall kw,
             extraction_loop Sample.fading_peak Sample.fit_constant 3
               (/ 100) 100 (27 / 200) kw 5
               (initial_locals Sample.unit_steps)
             = Ok (initial_locals Sample.unit_steps)).
  { intros kw. cbn [extraction_loop initial_locals snr xgtb]. rltb.
    reflexivity. }
  split; [apply H|].
  split; unfold recursiveFrequencyFinder; rewrite H; reflexivity.
Qed.

(** * Further properties *)

(** ** The minima scan: results and edge cases *)

(** X1.  On every array that is not empty the minima scan returns a pair of
    positions, after at most [len + 2] rounds: more rounds than that change
    nothing. *)
Theorem findNextMinimas_returns (yData : list R) :
  yData <> [] ->
  exists lo up,
    findNextMinimas yData = Ok (lo, up)
    /\ forall fuel : nat,
         (S (S (length yData)) <= fuel)%nat ->
         findNextMinimas_fuel fuel yData = Ok (lo, up).
Proof.
  intros Hne. destruct (findNextMinimas_total yData Hne) as (lo & up & H).
  exists lo, up. split; [exact H|].
  intros fuel Hf. rewrite findNextMinimas_fuel_enough by assumption. exact H.
Qed.

Lemma findNextMinimas_returns_witness :
  exists lo up,
    findNextMinimas [3; 1; 5; 1; 3] = Ok (lo, up)
    /\ forall fuel : nat,
         (7 <= fuel)%nat -> findNextMinimas_fuel fuel [3; 1; 5; 1; 3] = Ok (lo, up).
Proof.
  apply (findNextMinimas_returns [3; 1; 5; 1; 3]). discriminate.
Defined.

(** What a round of the scan can write: the old value or the position the
    counter has reached. *)
Lemma minimas_step_values (yData : list R) (index counter lo up lo' up' : Z) :
  minimas_step yData index counter lo up = Ok (lo', up') ->
  (lo' = lo \/ lo' = (index - counter)%Z)
  /\ (up' = up \/ up' = (index + counter)%Z).
Proof.
  unfold minimas_step.
  destruct (index - counter - 1 <? 0)%Z; cbn [bind].
  - destruct (index + counter + 1 >=? Py.len yData)%Z; cbn [bind].
    + intros H; injection H as <- <-. auto.
    + destruct (checkMinima yData (index + counter)) as [[|]| |];
        cbn [bind]; try discriminate; intros H; injection H as <- <-; auto.
  - destruct (checkMinima yData (index - counter)) as [[|]| |];
      cbn [bind]; try discriminate;
      (destruct (index + counter + 1 >=? Py.len yData)%Z; cbn [bind];
       [ intros H; injection H as <- <-; auto
       | destruct (checkMinima yData (index + counter)) as [[|]| |];
         cbn [bind]; try discriminate; intros H; injection H as <- <-; auto ]).
Qed.

Lemma minimas_loop_brackets (yData : list R) (index : Z) :
  (0 <= index < Py.len yData)%Z ->
  forall (fuel : nat) (counter lo up lo' up' : Z),
    (1 <= counter)%Z ->
    (lo = -1 \/ index - counter < lo < index)%Z ->
    (up = -1 \/ index < up < index + counter)%Z ->
    minimas_loop fuel yData index counter lo up = Ok (lo', up') ->
    (lo' <> -1 /\ lo' < index < up'
     /\ index - Z.max counter (Z.max (index + 2) (Py.len yData - 1 - index))
        <= lo'
     /\ up' <= index
               + Z.max counter (Z.max (index + 2) (Py.len yData - 1 - index)))%Z.
Proof.
  intros Hi. induction fuel as [|fuel IH];
    intros counter lo up lo' up' Hc Hlo Hup; cbn [minimas_loop];
    [discriminate|].
  destruct (minimas_step_ok yData index counter lo up Hi Hc)
    as (l1 & u1 & Hstep & Hedge_lo & Hedge_up).
  rewrite Hstep. cbn [bind].
  apply minimas_step_values in Hstep. destruct Hstep as [Hl1 Hu1].
  destruct (negb (l1 =? -1)%Z && negb (u1 =? -1)%Z) eqn:E.
  - intros H; injection H as <- <-.
    apply andb_true_iff in E. destruct E as [El Eu].
    apply negb_true_iff, Z.eqb_neq in El.
    apply negb_true_iff, Z.eqb_neq in Eu. lia.
  - intros H.
    assert (Hlt : (counter
                   < Z.max (index + 2) (Py.len yData - 1 - index))%Z).
    { destruct (Z_lt_le_dec counter
                  (Z.max (index + 2) (Py.len yData - 1 - index)));
        [assumption|].
      exfalso. rewrite Hedge_lo, Hedge_up in E by lia.
      apply andb_false_iff in E.
      destruct E as [E|E]; apply negb_false_iff, Z.eqb_eq in E; lia. }
    apply IH in H; [lia|lia|lia|lia].
Qed.

(** X2.  The two positions the scan returns bracket the peak: the lower is
    below the peak position and is not the marker -1, the upper is above it,
    and neither is further from the peak than
    [max (index + 2) (len - 1 - index)].  The lower can be negative and the
    upper can lie beyond the last position. *)
Theorem findNextMinimas_brackets_peak (yData : list R) (index lo up : Z) :
  peakIndex yData = Ok index ->
  findNextMinimas yData = Ok (lo, up) ->
  (lo <> -1 /\ lo < index < up
   /\ index - Z.max (index + 2) (Py.len yData - 1 - index) <= lo
   /\ up <= index + Z.max (index + 2) (Py.len yData - 1 - index))%Z.
Proof.
  intros Hpeak Hmin.
  assert (Hne : yData <> []) by (intros ->; discriminate Hpeak).
  destruct (peakIndex_ok yData Hne) as (k & Hk & Hrange).
  rewrite Hpeak in Hk. injection Hk as <-.
  unfold findNextMinimas, findNextMinimas_fuel in Hmin.
  rewrite Hpeak in Hmin. cbn [bind] in Hmin.
  apply (minimas_loop_brackets yData index Hrange) in Hmin; lia.
Qed.

Lemma findNextMinimas_brackets_peak_witness :
  ((1 <> -1)%Z /\ (1 < 4 < 7)%Z
   /\ (4 - Z.max (4 + 2) (Py.len [2; 1; 2; 1; 5; 4; 3; 2; 3] - 1 - 4) <= 1)%Z
   /\ (7 <= 4 + Z.max (4 + 2) (Py.len [2; 1; 2; 1; 5; 4; 3; 2; 3] - 1 - 4))%Z).
Proof.
  apply (findNextMinimas_brackets_peak [2; 1; 2; 1; 5; 4; 3; 2; 3] 4 1 7).
  - run_minimas. reflexivity.
  - run_minimas. reflexivity.
Defined.

(** X3.  The degenerate arrays: on an empty array the scan raises the
    [ValueError] of [max]; on an array of one entry it returns [(-2, 2)],
    positions outside the array on both sides. *)
Theorem findNextMinimas_degenerate (v : R) :
  findNextMinimas [] = Raise (ValueError EmptySequence)
  /\ findNextMinimas [v] = Ok (-2, 2)%Z.
Proof.
  split; [reflexivity|].
  unfold findNextMinimas, findNextMinimas_fuel, peakIndex, Np.max.
  cbn [bind fold_left first_within].
  rewrite Rltb_true
    by (unfold Rminus; rewrite Rplus_opp_r, Rabs_R0; lra).
  cbn. reflexivity.
Qed.

(** ** The peak of a spectrum *)

Lemma fold_left_Rmax_ge_init (a : list R) (v : R) : v <= fold_left Rmax a v.
Proof.
  revert v. induction a as [|u a IH]; intros v; cbn [fold_left]; [lra|].
  eapply Rle_trans; [apply (Rmax_l v u)|apply IH].
Qed.

Lemma fold_left_Rmax_ge (a : list R) (v w : R) :
  In w (v :: a) -> w <= fold_left Rmax a v.
Proof.
  revert v. induction a as [|u a IH]; intros v Hin; cbn [fold_left].
  - destruct Hin as [<-|[]]. lra.
  - destruct Hin as [H|[H|Hin]].
    + subst w.
      eapply Rle_trans; [apply (Rmax_l v u)|apply fold_left_Rmax_ge_init].
    + subst w.
      eapply Rle_trans; [apply (Rmax_r v u)|apply fold_left_Rmax_ge_init].
    + apply IH. right. exact Hin.
Qed.

(** The first entry a mask lets through is the entry at the first position
    where the mask holds. *)
Lemma mask_first {A : Type} (g : R -> bool) (x : list A) (y : list R) :
  length x = length y ->
  (exists v, In v y /\ g v = true) ->
  exists (k : nat) (maxX : A) (rest : list A) (p : R),
    Py.mask x (map g y) = maxX :: rest
    /\ nth_error x k = Some maxX
    /\ nth_error y k = Some p
    /\ g p = true
    /\ forall (j : nat) (q : R),
         (j < k)%nat -> nth_error y j = Some q -> g q = false.
Proof.
  revert y. induction x as [|u x IH]; intros [|w y] Hlen Hex;
    try discriminate.
  - destruct Hex as (v & [] & _).
  - cbn [map Py.mask]. destruct (g w) eqn:Eg.
    + exists 0%nat, u, (Py.mask x (map g y)), w.
      repeat split; try reflexivity; try assumption. intros j q Hj. lia.
    + destruct (IH y) as (k & maxX & rest & p & Hm & Hx & Hy & Hg & Hfirst).
      * cbn in Hlen. lia.
      * destruct Hex as (v & [<-|Hv] & Hgv); [congruence|]. eauto.
      * exists (S k), maxX, rest, p. repeat split; try assumption.
        intros [|j] q Hj Hq.
        -- cbn in Hq. injection Hq as <-. exact Eg.
        -- cbn in Hq. apply (Hfirst j q); [lia|exact Hq].
Qed.

(** X4.  On a spectrum with as many frequencies as powers, at least one,
    [findMaxPowerFrequency] returns the largest power and the frequency at
    the first position whose power is within 1e-4 of it. *)
Theorem findMaxPowerFrequency_first_match (x y : list R) :
  length x = length y -> y <> [] ->
  exists (maxY maxX : R) (k : nat) (p : R),
    findMaxPowerFrequency (x, y) = Ok (maxY, maxX)
    /\ In maxY y
    /\ (forall v, In v y -> v <= maxY)
    /\ nth_error x k = Some maxX
    /\ nth_error y k = Some p
    /\ Rabs (p - maxY) < / 10000
    /\ forall (j : nat) (q : R),
         (j < k)%nat -> nth_error y j = Some q ->
         ~ Rabs (q - maxY) < / 10000.
Proof.
  intros Hlen Hne. destruct y as [|v y]; [congruence|].
  set (m := fold_left Rmax y v).
  assert (Hin : In m (v :: y)) by apply fold_left_Rmax_In.
  destruct (mask_first (fun w => Rltb (Rabs (w - m)) (/ 10000)) x (v :: y) Hlen)
    as (k & maxX & rest & p & Hm & Hx & Hy & Hg & Hfirst).
  { exists m. split; [exact Hin|]. apply Rltb_true.
    unfold Rminus. rewrite Rplus_opp_r, Rabs_R0. lra. }
  exists m, maxX, k, p.
  split.
  { unfold findMaxPowerFrequency, Np.max, near_max_mask. cbn [fst snd bind].
    fold m. rewrite Hm. reflexivity. }
  split; [exact Hin|].
  split; [intros w Hw; apply fold_left_Rmax_ge; exact Hw|].
  split; [exact Hx|]. split; [exact Hy|].
  split; [apply Rltb_spec; exact Hg|].
  intros j q Hj Hq Hlt. apply Rltb_spec in Hlt.
  rewrite (Hfirst j q Hj Hq) in Hlt. discriminate.
Qed.

Lemma findMaxPowerFrequency_first_match_witness :
  exists (maxY maxX : R) (k : nat) (p : R),
    findMaxPowerFrequency ([1; 2; 3], [/ 2; 3; / 5]) = Ok (maxY, maxX)
    /\ In maxY [/ 2; 3; / 5]
    /\ (forall v, In v [/ 2; 3; / 5] -> v <= maxY)
    /\ nth_error [1; 2; 3] k = Some maxX
    /\ nth_error [/ 2; 3; / 5] k = Some p
    /\ Rabs (p - maxY) < / 10000
    /\ forall (j : nat) (q : R),
         (j < k)%nat -> nth_error [/ 2; 3; / 5] j = Some q ->
         ~ Rabs (q - maxY) < / 10000.
Proof.
  apply (findMaxPowerFrequency_first_match [1; 2; 3] [/ 2; 3; / 5]).
  - reflexivity.
  - discriminate.
Defined.

(** ** The fit *)

(** X5.  With any fuel for at least one round, [findAndRemoveMaxFrequency]
    is one call of the optimiser, seeded with the peak power, the peak
    frequency and phase 0, followed by the sign correction; an exception of
    the peak search or of the optimiser is the exception of the call. *)
Theorem findAndRemoveMaxFrequency_single_fit
  (curve_fit : lightcurve -> params -> res params) (fuel : nat)
  (lightCurve : lightcurve) (ampSpectrum : spectrum) :
  findAndRemoveMaxFrequency_fuel curve_fit (S fuel) lightCurve ampSpectrum
  = '(maxY, maxX) <- findMaxPowerFrequency ampSpectrum ;;
    popt <- curve_fit lightCurve (maxY, maxX, 0) ;;
    Ok (correct_sign popt, residual lightCurve (correct_sign popt)).
Proof.
  rewrite findAndRemoveMaxFrequency_fuel_enough.
  apply findAndRemoveMaxFrequency_eq.
Qed.

Lemma sub_arrays_length (a b : list R) :
  length (sub_arrays a b) = Nat.min (length a) (length b).
Proof. unfold sub_arrays. rewrite length_map, length_combine. reflexivity. Qed.

Lemma sin_model_length (x : list R) (q : params) :
  length (sin_model x q) = length x.
Proof.
  destruct q as [[a f] ph]. unfold sin_model. apply length_map.
Qed.

(** X6.  A fit that [findAndRemoveMaxFrequency] returns has an amplitude and
    a frequency that are not negative, and the returned light curve has the
    time row of the input and, for an input with as many flux values as
    times, as many flux values. *)
Theorem findAndRemoveMaxFrequency_result
  (curve_fit : lightcurve -> params -> res params)
  (lightCurve : lightcurve) (ampSpectrum : spectrum)
  (a f ph : R) (lc : lightcurve) :
  findAndRemoveMaxFrequency curve_fit lightCurve ampSpectrum
  = Ok ((a, f, ph), lc) ->
  0 <= a /\ 0 <= f
  /\ fst lc = fst lightCurve
  /\ (length (fst lightCurve) = length (snd lightCurve) ->
      length (snd lc) = length (snd lightCurve)).
Proof.
  intros H.
  destruct (findAndRemoveMaxFrequency_nonneg curve_fit _ _ _ _ _ _ H)
    as [Ha Hf].
  split; [exact Ha|]. split; [exact Hf|].
  rewrite findAndRemoveMaxFrequency_eq in H.
  destruct (findMaxPowerFrequency ampSpectrum) as [[maxY maxX]| |];
    cbn [bind] in H; try discriminate.
  destruct (curve_fit lightCurve (maxY, maxX, 0)) as [popt| |];
    cbn [bind] in H; try discriminate.
  injection H as _ <-. unfold residual. cbn [fst snd].
  split; [reflexivity|].
  intros Hlen. rewrite sub_arrays_length, sin_model_length. lia.
Qed.

Lemma findAndRemoveMaxFrequency_result_witness :
  0 <= 1 /\ 0 <= 2
  /\ fst (residual Sample.flat_curve (1, 2, PI)) = fst Sample.flat_curve
  /\ (length (fst Sample.flat_curve) = length (snd Sample.flat_curve) ->
      length (snd (residual Sample.flat_curve (1, 2, PI)))
      = length (snd Sample.flat_curve)).
Proof.
  apply (findAndRemoveMaxFrequency_result Sample.fit_negative_first
           Sample.flat_curve Sample.peak_at_2 1 2 PI).
  pose proof PI_RGT_0 as Hpi.
  rewrite findAndRemoveMaxFrequency_eq, findMaxPowerFrequency_peak_at_2.
  cbn [bind Sample.fit_negative_first]. rewrite Reqb_true by reflexivity.
  cbn [bind correct_sign]. rewrite (Rltb_true (-1) 0) by lra. cbn [orb].
  rewrite (Rltb_false PI 0) by lra.
  rewrite Rabs_left by lra. rewrite Rabs_right by lra.
  replace (- -1) with 1 by lra. replace (0 + PI) with PI by lra.
  reflexivity.
Defined.

Lemma sin_shift_minus_PI (x : R) : sin (x - PI) = - sin x.
Proof.
  replace (x - PI) with (- (PI - x)) by lra.
  rewrite sin_antisym, sin_PI_x. reflexivity.
Qed.

(** X7.  When the optimiser answers with a negative amplitude and a
    frequency that is not negative, the sign correction keeps the fitted
    curve: the corrected parameters give the same model values, and so the
    same residual, as the optimiser's own. *)
Theorem correct_sign_same_model (lightCurve : lightcurve) (a f ph : R) :
  a < 0 -> 0 <= f ->
  sin_model (fst lightCurve) (correct_sign (a, f, ph))
  = sin_model (fst lightCurve) (a, f, ph)
  /\ residual lightCurve (correct_sign (a, f, ph))
     = residual lightCurve (a, f, ph).
Proof.
  intros Ha Hf.
  assert (Hm : sin_model (fst lightCurve) (correct_sign (a, f, ph))
               = sin_model (fst lightCurve) (a, f, ph)).
  { unfold correct_sign. rewrite (Rltb_true a 0) by exact Ha. cbn [orb].
    rewrite Rabs_left by exact Ha. rewrite Rabs_right by lra.
    unfold sin_model. apply map_ext. intros t.
    destruct (Rltb PI ph).
    - replace (2 * PI * f * t + (ph + - PI))
        with (2 * PI * f * t + ph - PI) by lra.
      rewrite sin_shift_minus_PI. lra.
    - replace (2 * PI * f * t + (ph + PI))
        with (2 * PI * f * t + ph + PI) by lra.
      rewrite neg_sin. lra. }
  split; [exact Hm|]. unfold residual. rewrite Hm. reflexivity.
Qed.

Lemma correct_sign_same_model_witness :
  sin_model (fst Sample.flat_curve) (correct_sign (-1, 2, 0))
  = sin_model (fst Sample.flat_curve) (-1, 2, 0)
  /\ residual Sample.flat_curve (correct_sign (-1, 2, 0))
     = residual Sample.flat_curve (-1, 2, 0).
Proof.
  apply (correct_sign_same_model Sample.flat_curve (-1) 2 0); lra.
Defined.

(** ** The signal to noise ratio: errors and degenerate windows *)

Lemma diff_short (x : list R) : (length x < 2)%nat -> Np.diff x = [].
Proof.
  destruct x as [|u [|v x]]; cbn [length Np.diff]; intros H;
    try reflexivity; lia.
Qed.

(** X8.  [computeSignalToNoise] raises the [ValueError] of [max] on an empty
    power row; with a power row that is not empty it raises the
    [ValueError] of [int(nan)] when there are fewer than two frequencies,
    and it returns a value exactly when the mean frequency step is a number
    other than zero. *)
Theorem computeSignalToNoise_errors (x y : list R) (windowSize : R) :
  (y = [] ->
   computeSignalToNoise (x, y) windowSize = Raise (ValueError EmptySequence))
  /\ (y <> [] -> (length x < 2)%nat ->
      computeSignalToNoise (x, y) windowSize = Raise (ValueError NanToInt))
  /\ (y <> [] ->
      ((exists v, computeSignalToNoise (x, y) windowSize = Ok v)
       <-> exists step, Np.mean (Np.diff x) = Fin step /\ step <> 0)).
Proof.
  split; [intros ->; reflexivity|]. split.
  - intros Hne Hlen. unfold computeSignalToNoise. cbn [fst snd].
    destruct (findNextMinimas_total y Hne) as (lo & up & ->). cbn [bind].
    rewrite (diff_short x Hlen). reflexivity.
  - intros Hne. split.
    + intros [v Hv]. unfold computeSignalToNoise in Hv. cbn [fst snd] in Hv.
      destruct (findNextMinimas_total y Hne) as (lo & up & Hm).
      rewrite Hm in Hv. cbn [bind] in Hv.
      destruct (Np.mean (Np.diff x)) as [step| | |]; try discriminate.
      exists step. split; [reflexivity|]. intros ->.
      rewrite Reqb_true in Hv by reflexivity.
      destruct (Reqb windowSize 0); discriminate.
    + intros (step & Hmean & Hstep).
      apply (computeSignalToNoise_returns x y windowSize step); assumption.
Qed.

Lemma computeSignalToNoise_errors_witness :
  computeSignalToNoise ([1], [3; 1; 5; 1; 3]) 7 = Raise (ValueError NanToInt).
Proof.
  apply (proj1 (proj2 (computeSignalToNoise_errors [1] [3; 1; 5; 1; 3] 7))).
  - discriminate.
  - cbn. lia.
Defined.

Lemma slice_same (y : list R) (a : Z) : Py.slice y a a = [].
Proof. unfold Py.slice. rewrite Z.sub_diag. reflexivity. Qed.

(** X9.  With a window narrower than one frequency step the count of
    positions is 0, both noise windows are empty, their mean is NaN and so
    is the returned ratio. *)
Theorem computeSignalToNoise_narrow_window (x y : list R)
  (windowSize step : R) :
  y <> [] -> Np.mean (Np.diff x) = Fin step ->
  0 <= windowSize < step ->
  computeSignalToNoise (x, y) windowSize = Ok NaN.
Proof.
  intros Hne Hmean [Hw0 Hw1].
  assert (Ht : trunc (windowSize / step) = 0%Z).
  { assert (Hq : 0 <= windowSize / step < 1).
    { split.
      - apply Rmult_le_pos; [exact Hw0|].
        apply Rlt_le, Rinv_0_lt_compat. lra.
      - apply (Rmult_lt_reg_r step); [lra|].
        unfold Rdiv. rewrite Rmult_assoc, Rinv_l by lra. lra. }
    apply trunc_between; cbn; lra. }
  unfold computeSignalToNoise. cbn [fst snd].
  destruct (findNextMinimas_total y Hne) as (lo & up & ->). cbn [bind].
  rewrite Hmean, Reqb_false by lra. rewrite Ht. cbn [bind].
  rewrite Z.sub_0_r, Z.add_0_r, !slice_same. cbn [app Np.mean].
  destruct y as [|v y]; [congruence|]. unfold Np.max. cbn [bind].
  pose proof (mask_near_max_nonempty (/ 1000000) (fold_left Rmax y v) (v :: y))
    as Hm.
  destruct (Py.mask (v :: y)
              (near_max_mask (/ 1000000) (fold_left Rmax y v) (v :: y))).
  - exfalso. apply Hm; [lra|apply fold_left_Rmax_In|reflexivity].
  - reflexivity.
Qed.

Lemma computeSignalToNoise_narrow_window_witness :
  computeSignalToNoise Sample.short_peak (/ 2) = Ok NaN.
Proof.
  apply (computeSignalToNoise_narrow_window
           (fst Sample.short_peak) (snd Sample.short_peak) (/ 2) 1).
  - discriminate.
  - exact mean_diff_short_peak.
  - lra.
Defined.

(** ** The extraction loop: errors and the first round *)

Section LoopEdges.

Variable autopower : lightcurve -> R -> R -> Z -> res (list R * list R).
Variable curve_fit : lightcurve -> params -> res params.
Variable similarFrequenciesCount : Z.
Variable similarityStdDev : R.
Variable snrCriterion : R.
Variable windowSize : R.
Variable kw : kwargs.

(** X10.  [recursiveFrequencyFinder] raises [IndexError] on a light curve
    without samples; with samples and [snrCriterion] below 100 it raises
    [KeyError] when the keyword [frequencyRange] is missing; with
    [snrCriterion] of 100 or more it raises [UnboundLocalError] in mode
    ['Normal'], where the spectrum that was never computed is to be saved,
    and returns an empty list and no spectrum in any other mode. *)
Theorem recursiveFrequencyFinder_errors (data : lightcurve) :
  (fst data = [] ->
   forall fuel : nat,
     recursiveFrequencyFinder autopower curve_fit similarFrequenciesCount
       similarityStdDev snrCriterion windowSize kw fuel data
     = Raise IndexError)
  /\ (fst data <> [] -> snrCriterion < 100 -> frequencyRange kw = None ->
      forall fuel : nat,
        recursiveFrequencyFinder autopower curve_fit similarFrequenciesCount
          similarityStdDev snrCriterion windowSize kw (S fuel) data
        = Raise KeyError)
  /\ (fst data <> [] -> 100 <= snrCriterion ->
      forall fuel : nat,
        recursiveFrequencyFinder autopower curve_fit similarFrequenciesCount
          similarityStdDev snrCriterion windowSize kw fuel data
        = match mode kw with
          | Some Normal => Raise UnboundLocalError
          | _ => Ok ([], None)
          end).
Proof.
  split; [|split].
  - intros Hempty fuel. unfold recursiveFrequencyFinder. rewrite Hempty.
    reflexivity.
  - intros Hne Hlt Hrange fuel. unfold recursiveFrequencyFinder.
    destruct (first_items_nonempty data Hne) as (a & m & -> & ->).
    cbn [bind extraction_loop initial_locals snr xgtb].
    rewrite Rltb_true by exact Hlt.
    unfold round. cbn [fit frequencyList]. rewrite Hrange. reflexivity.
  - intros Hne Hge fuel. unfold recursiveFrequencyFinder.
    destruct (first_items_nonempty data Hne) as (a & m & -> & ->).
    cbn [bind].
    assert (Hloop : extraction_loop autopower curve_fit
                      similarFrequenciesCount similarityStdDev snrCriterion
                      windowSize kw fuel (initial_locals data)
                    = Ok (initial_locals data)).
    { destruct fuel; cbn [extraction_loop initial_locals snr xgtb];
        rewrite Rltb_false by lra; reflexivity. }
    rewrite Hloop. cbn [bind initial_locals amp frequencyList f_out].
    destruct (mode kw) as [[| |]|]; reflexivity.
Qed.

Lemma round_binds_amp (st st' : locals) (go_on : bool) :
  round autopower curve_fit similarFrequenciesCount similarityStdDev
    windowSize kw st = Ok (st', go_on) ->
  exists a, amp st' = Some a.
Proof.
  unfold round.
  destruct (fit st) as [[[a f] ph]|];
    (destruct (frequencyRange kw); cbn [bind]; try discriminate;
     destruct (calculateAmplitudeSpectrum _ _ _); cbn [bind];
     try discriminate;
     destruct (computeSignalToNoise _ _); cbn [bind]; try discriminate;
     destruct (findAndRemoveMaxFrequency _ _ _) as [[q d]| |];
     cbn [bind]; try discriminate;
     intros H; injection H as <- _; cbn [amp]; eauto).
Qed.

(** X11.  When the first round finds a signal to noise ratio that is not
    above [snrCriterion] (NaN included), the loop stops after that round:
    one fit has been made and the data reduced by it, but the returned list
    is empty. *)
Theorem recursiveFrequencyFinder_nothing_significant (data : lightcurve)
  (st1 : locals) (go_on : bool) (fuel : nat) :
  fst data <> [] -> snrCriterion < 100 ->
  round autopower curve_fit similarFrequenciesCount similarityStdDev
    windowSize kw (initial_locals data) = Ok (st1, go_on) ->
  xgtb (snr st1) snrCriterion = false ->
  recursiveFrequencyFinder autopower curve_fit similarFrequenciesCount
    similarityStdDev snrCriterion windowSize kw (S fuel) data
  = Ok ([], f_out st1).
Proof.
  intros Hne Hlt Hround Hsnr. unfold recursiveFrequencyFinder.
  destruct (first_items_nonempty data Hne) as (a & m & -> & ->).
  cbn [bind extraction_loop].
  change (snr (initial_locals data)) with (Fin 100). cbn [xgtb].
  rewrite Rltb_true by exact Hlt. rewrite Hround. cbn [bind].
  assert (Hstop : (if go_on
                   then extraction_loop autopower curve_fit
                          similarFrequenciesCount similarityStdDev
                          snrCriterion windowSize kw fuel st1
                   else Ok st1) = Ok st1).
  { destruct go_on; [|reflexivity].
    destruct fuel; cbn [extraction_loop]; rewrite Hsnr; reflexivity. }
  rewrite Hstop. cbn [bind].
  pose proof (round_appends_previous_fit _ _ _ _ _ _ _ _ _ Hround) as Hl.
  cbn [initial_locals fit frequencyList] in Hl.
  destruct (round_binds_amp _ _ _ Hround) as [sp Hsp]. rewrite Hsp, Hl.
  destruct (mode kw) as [[| |]|]; reflexivity.
Qed.

End LoopEdges.

Lemma recursiveFrequencyFinder_errors_witness :
  recursiveFrequencyFinder Sample.fading_peak Sample.fit_constant 3 (/ 100)
    4 (27 / 200) {| mode := Some Full; frequencyRange := None |} 3
    Sample.unit_steps
  = Raise KeyError.
Proof.
  apply (proj1 (proj2 (recursiveFrequencyFinder_errors
                         Sample.fading_peak Sample.fit_constant 3 (/ 100) 4
                         (27 / 200)
                         {| mode := Some Full; frequencyRange := None |}
                         Sample.unit_steps)) ltac:(discriminate) ltac:(lra)
           eq_refl 2%nat).
Defined.

Lemma recursiveFrequencyFinder_nothing_significant_witness :
  recursiveFrequencyFinder Sample.fading_peak Sample.fit_constant 3 (/ 100)
    7 (27 / 200) Sample.keywords 3 Sample.unit_steps
  = Ok ([], Some Sample.grid).
Proof.
  apply (recursiveFrequencyFinder_nothing_significant
           Sample.fading_peak Sample.fit_constant 3 (/ 100) 7 (27 / 200)
           Sample.keywords Sample.unit_steps
           {| snr := Fin (20 / 3); fit := Some (1, 2, PI / 2);
              data := residual Sample.unit_steps (1, 2, PI / 2);
              frequencyList := []; amp := Some Sample.strong_peak;
              f_out := Some Sample.grid |} true 2).
  - discriminate.
  - lra.
  - exact round_sample_first.
  - cbn [snr xgtb]. apply Rltb_false. lra.
Defined.

(** ** The staleness check: when it can stop the loop *)

Lemma finite_map_Fin (a : list xfloat) (l : list R) :
  Np.finite a = Some l -> a = map Fin l.
Proof.
  revert l. induction a as [|z a IH]; intros l; cbn [Np.finite].
  - intros H; injection H as <-. reflexivity.
  - destruct z as [r| | |]; try discriminate.
    destruct (Np.finite a) as [l'|]; cbn [option_map]; try discriminate.
    intros H; injection H as <-. cbn [map]. f_equal. apply IH. reflexivity.
Qed.

Lemma finite_None (a : list xfloat) (z : xfloat) :
  In z a -> (forall r, z <> Fin r) -> Np.finite a = None.
Proof.
  intros Hin Hz. induction a as [|w a IH]; [destruct Hin|].
  cbn [Np.finite]. destruct Hin as [->|Hin].
  - destruct z as [r| | |]; try reflexivity. exfalso. apply (Hz r). reflexivity.
  - rewrite (IH Hin). destruct w; reflexivity.
Qed.

Section StalenessCheck.

Variable similarFrequenciesCount : Z.
Variable similarityStdDev : R.

(** X12.  An entry among the last [similarFrequenciesCount] whose signal to
    noise ratio is not a finite number makes the standard deviation NaN:
    the check then never stops the loop. *)
Theorem cutoffCriterion_not_finite (frequencyList : list entry) (e : entry) :
  In e (Py.slice_from frequencyList (- similarFrequenciesCount)) ->
  (forall r, entry_snr e <> Fin r) ->
  cutoffCriterion similarFrequenciesCount similarityStdDev frequencyList
  = true.
Proof.
  intros Hin Hsnr. unfold cutoffCriterion.
  destruct (Py.len frequencyList <? similarFrequenciesCount)%Z;
    [reflexivity|].
  unfold Np.xstd.
  rewrite (finite_None _ (entry_snr e)); [reflexivity| |exact Hsnr].
  apply in_flat_map. exists e. split; [exact Hin|].
  destruct e as [[[f s] a] p]. cbn. auto.
Qed.

Lemma sum_cons (a : R) (l : list R) : Np.sum (a :: l) = a + Np.sum l.
Proof. reflexivity. Qed.

Lemma sum_squares_nonneg (m : R) (l : list R) :
  0 <= Np.sum (map (fun v => (v - m) * (v - m)) l).
Proof.
  induction l as [|w l IH]; [cbn; lra|].
  cbn [map]. rewrite sum_cons.
  pose proof (Rle_0_sqr (w - m)) as Hw. unfold Rsqr in Hw. lra.
Qed.

Lemma sum_squares_one (m v : R) (l : list R) :
  In v l -> (v - m) * (v - m) <= Np.sum (map (fun v => (v - m) * (v - m)) l).
Proof.
  induction l as [|w l IH]; intros Hin; [destruct Hin|].
  pose proof (sum_squares_nonneg m l) as Hn.
  cbn [map]. rewrite sum_cons.
  destruct Hin as [->|Hin].
  - lra.
  - specialize (IH Hin).
    pose proof (Rle_0_sqr (w - m)) as Hw. unfold Rsqr in Hw. lra.
Qed.

Lemma sum_squares_two (m u v : R) (l : list R) :
  u <> v -> In u l -> In v l ->
  (u - m) * (u - m) + (v - m) * (v - m)
  <= Np.sum (map (fun v => (v - m) * (v - m)) l).
Proof.
  intros Hne. induction l as [|w l IH]; intros Hu Hv; [destruct Hu|].
  pose proof (sum_squares_nonneg m l) as Hn.
  cbn [map]. rewrite sum_cons.
  destruct Hu as [Hu|Hu]; destruct Hv as [Hv|Hv].
  - congruence.
  - subst w. pose proof (sum_squares_one m v l Hv). lra.
  - subst w. pose proof (sum_squares_one m u l Hu). lra.
  - specialize (IH Hu Hv).
    pose proof (Rle_0_sqr (w - m)) as Hw. unfold Rsqr in Hw. lra.
Qed.

(** X13.  The check stops the loop only when all the numbers of the last
    entries are close to each other, whatever they stand for: any two of
    the frequencies, ratios, amplitudes and phases of the last
    [similarFrequenciesCount] entries then differ by less than
    [similarityStdDev * sqrt (2 * n)], [n] being how many numbers there
    are. *)
Theorem cutoffCriterion_stops_only_if_close (frequencyList : list entry)
  (u v : R) :
  let rows :=
    flat_map entry_row
      (Py.slice_from frequencyList (- similarFrequenciesCount)) in
  cutoffCriterion similarFrequenciesCount similarityStdDev frequencyList
  = false ->
  In (Fin u) rows -> In (Fin v) rows ->
  (u - v) * (u - v)
  < 2 * INR (length rows) * (similarityStdDev * similarityStdDev).
Proof.
  intros rows Hstop Hu Hv. unfold cutoffCriterion in Hstop.
  destruct (Py.len frequencyList <? similarFrequenciesCount)%Z;
    [discriminate|].
  fold rows in Hstop. unfold Np.xstd in Hstop.
  destruct (Np.finite rows) as [vals|] eqn:Hfin; [|discriminate].
  apply finite_map_Fin in Hfin.
  assert (Hlen : length rows = length vals)
    by (rewrite Hfin; apply length_map).
  assert (Hin : forall w, In (Fin w) rows -> In w vals).
  { intros w Hw. rewrite Hfin in Hw. apply in_map_iff in Hw.
    destruct Hw as (w' & Hw' & Hin'). injection Hw' as ->. exact Hin'. }
  apply Hin in Hu. apply Hin in Hv. rewrite Hlen. clear Hfin Hlen Hin.
  unfold Np.std, Np.mean in Hstop.
  destruct vals as [|w0 vals0] eqn:Evals; [discriminate|].
  rewrite <- Evals in *.
  set (m := Np.sum vals / INR (length vals)) in *.
  set (V := Np.sum (map (fun v => (v - m) * (v - m)) vals)) in *.
  assert (Hn : 0 < INR (length vals)).
  { rewrite Evals. cbn [length]. apply lt_0_INR. lia. }
  cbn [xltb] in Hstop.
  destruct (Rltb (sqrt (V / INR (length vals))) similarityStdDev) eqn:E;
    [|discriminate].
  apply Rltb_spec in E.
  assert (HV : 0 <= V) by apply sum_squares_nonneg.
  assert (Hq : 0 <= V / INR (length vals)).
  { apply Rmult_le_pos; [exact HV|]. apply Rlt_le, Rinv_0_lt_compat, Hn. }
  assert (Hthr : 0 < similarityStdDev).
  { pose proof (sqrt_pos (V / INR (length vals))). lra. }
  apply sqrt_lt_square in E; [|exact Hq|exact Hthr].
  assert (HVn : V < INR (length vals) * (similarityStdDev * similarityStdDev)).
  { apply (Rmult_lt_compat_r (INR (length vals))) in E; [|exact Hn].
    unfold Rdiv in E. rewrite Rmult_assoc, Rinv_l in E by lra. lra. }
  destruct (Req_dec_T u v) as [->|Hne].
  - assert (0 < INR (length vals) * (similarityStdDev * similarityStdDev))
      by (apply Rmult_lt_0_compat; nra).
    lra.
  - pose proof (sum_squares_two m u v vals Hne Hu Hv) as H2. fold V in H2.
    pose proof (Rle_0_sqr ((u - m) + (v - m))) as Hs. unfold Rsqr in Hs.
    set (K := INR (length vals) * (similarityStdDev * similarityStdDev)) in *.
    replace (2 * INR (length vals) * (similarityStdDev * similarityStdDev))
      with (2 * K) by (unfold K; ring).
    assert (Hd : (u - v) * (u - v)
                 <= 2 * ((u - m) * (u - m) + (v - m) * (v - m))).
    { replace (2 * ((u - m) * (u - m) + (v - m) * (v - m)))
        with ((u - v) * (u - v)
              + ((u - m) + (v - m)) * ((u - m) + (v - m))) by ring.
      lra. }
    lra.
Qed.

End StalenessCheck.

Lemma cutoffCriterion_not_finite_witness :
  cutoffCriterion 1 (/ 100) [(5, PInf, 5, 5)] = true.
Proof.
  apply (cutoffCriterion_not_finite 1 (/ 100) [(5, PInf, 5, 5)] (5, PInf, 5, 5)).
  - left. reflexivity.
  - discriminate.
Defined.

Lemma cutoffCriterion_stops_only_if_close_witness :
  (5 - 5001 / 1000) * (5 - 5001 / 1000)
  < 2 * INR (length (flat_map entry_row
                       (Py.slice_from [(5, Fin (5001 / 1000), 5, 5)] (- (1)))))
    * (/ 100 * / 100).
Proof.
  apply (cutoffCriterion_stops_only_if_close 1 (/ 100)
           [(5, Fin (5001 / 1000), 5, 5)] 5 (5001 / 1000)).
  - unfold cutoffCriterion, Py.slice_from, Py.clamp, Py.len, Np.xstd, Np.std,
      Np.mean, xltb.
    cbn. rewrite Rltb_true; [reflexivity|].
    apply sqrt_lt_square; lra.
  - left. reflexivity.
  - right. left. reflexivity.
Defined.

(** ** The most common time step: short arrays, majorities and ties *)

(** X14.  With fewer than two samples there is no time difference, and
    [findMostCommonDiff] and so [nyquistFrequency] raise the [ValueError]
    of [argmax] on an empty sequence. *)
Theorem nyquistFrequency_short (time flux : list R) :
  (length time < 2)%nat ->
  findMostCommonDiff time = Raise (ValueError EmptySequence)
  /\ nyquistFrequency (time, flux) = Raise (ValueError EmptySequence).
Proof.
  intros Hlen.
  assert (H : findMostCommonDiff time = Raise (ValueError EmptySequence)).
  { unfold findMostCommonDiff. rewrite shifted_difference.
    rewrite (diff_short time Hlen). reflexivity. }
  split; [exact H|]. unfold nyquistFrequency. cbn [fst]. rewrite H.
  reflexivity.
Qed.

Lemma nyquistFrequency_short_witness :
  findMostCommonDiff [7] = Raise (ValueError EmptySequence)
  /\ nyquistFrequency ([7], [1]) = Raise (ValueError EmptySequence).
Proof.
  apply (nyquistFrequency_short [7] [1]). cbn. lia.
Defined.

(** X15.  A time step that occurs more often than every other one is the
    step [findMostCommonDiff] returns, however irregular the other steps
    are. *)
Theorem findMostCommonDiff_majority (time : list R) (delta : R) :
  (forall v, v <> delta ->
             (occurrences (Np.diff time) v
              < occurrences (Np.diff time) delta)%nat) ->
  findMostCommonDiff time = Ok delta.
Proof.
  intros Hmaj.
  assert (Hlen : (2 <= length time)%nat).
  { specialize (Hmaj (delta + 1)).
    destruct time as [|u [|v t]]; cbn [length]; try lia;
      cbn in Hmaj; assert (delta + 1 <> delta) by lra;
      specialize (Hmaj H); lia. }
  destruct (findMostCommonDiff_mode time Hlen) as (m & Hm & _ & Hmax).
  rewrite Hm. f_equal.
  destruct (Req_dec_T m delta) as [E|E]; [exact E|].
  specialize (Hmaj m E). specialize (Hmax delta). lia.
Qed.

Lemma findMostCommonDiff_majority_witness :
  findMostCommonDiff [0; 1; 2; 5; 6] = Ok 1.
Proof.
  apply (findMostCommonDiff_majority [0; 1; 2; 5; 6] 1).
  intros v Hv. unfold occurrences. cbn.
  repeat match goal with
         | |- context [Req_dec_T ?a ?b] => destruct (Req_dec_T a b)
         end; try lra; lia.
Defined.

Lemma argmax_from_first (l : list (R * nat)) :
  forall best : R * nat,
    exists l1 l2,
      best :: l = l1 ++ argmax_from best l :: l2
      /\ Forall (fun q => (snd q < snd (argmax_from best l))%nat) l1.
Proof.
  induction l as [|p l IH]; intros best; cbn [argmax_from].
  - exists [], []. split; [reflexivity|constructor].
  - destruct (snd best <? snd p)%nat eqn:E.
    + apply Nat.ltb_lt in E. destruct (IH p) as (l1 & l2 & Heq & Hall).
      exists (best :: l1), l2. split; [cbn; rewrite <- Heq; reflexivity|].
      constructor; [|exact Hall].
      destruct (argmax_from_spec l p) as [_ Hmax].
      specialize (Hmax p (or_introl eq_refl)). lia.
    + apply Nat.ltb_ge in E. destruct (IH best) as (l1 & l2 & Heq & Hall).
      destruct l1 as [|b l1].
      * cbn in Heq. injection Heq as Hb Hl.
        exists [], (p :: l2). split; [|constructor].
        cbn. rewrite <- Hb, Hl. reflexivity.
      * cbn in Heq. injection Heq as Hb Hl. subst b.
        exists (best :: p :: l1), l2. split; [cbn; do 2 f_equal; exact Hl|].
        inversion Hall as [|? ? Hbest Hrest]; subst.
        constructor; [exact Hbest|]. constructor; [lia|exact Hrest].
Qed.

Lemma sorted_keys_split (l1 l2 : list (R * nat)) (r : R * nat) :
  sorted_keys (l1 ++ r :: l2) -> keys_above (fst r) l2.
Proof.
  induction l1 as [|p l1 IH]; cbn [app sorted_keys]; intros [Hp Hs].
  - exact Hp.
  - apply IH. exact Hs.
Qed.

Lemma lookupc_key_In (l : list (R * nat)) (w : R) :
  lookupc l w = 0%nat \/ In (w, lookupc l w) l.
Proof.
  induction l as [|[u c] l IH]; [left; reflexivity|].
  cbn [lookupc]. unfold Reqb. destruct (Req_dec_T w u) as [->|Hne].
  - right. left. reflexivity.
  - destruct IH as [IH|IH]; [left; exact IH|right; right; exact IH].
Qed.

(** X16.  Among time steps that occur equally often, the most often,
    [findMostCommonDiff] returns the smallest. *)
Theorem findMostCommonDiff_smallest_of_ties (time : list R) (m v : R) :
  findMostCommonDiff time = Ok m ->
  In v (Np.diff time) ->
  (occurrences (Np.diff time) m <= occurrences (Np.diff time) v)%nat ->
  m <= v.
Proof.
  unfold findMostCommonDiff. rewrite shifted_difference.
  set (a := Np.diff time).
  pose proof (unique_counts_sorted a) as Hs.
  pose proof (unique_counts_lookup a) as Hl.
  destruct (unique_counts a) as [|p l] eqn:E; [discriminate|].
  intros Hm Hv Htie. injection Hm as Hm.
  destruct (argmax_from_first l p) as (l1 & l2 & Heq & Hbefore).
  destruct (argmax_from_spec l p) as [Hin _].
  destruct (argmax_from p l) as [m' c] eqn:Er. cbn [fst snd] in *. subst m'.
  assert (Hc : occurrences a m = c).
  { rewrite <- Hl. apply lookupc_In; assumption. }
  assert (Hpos : (1 <= occurrences a v)%nat).
  { apply (count_occ_In Req_dec_T) in Hv. unfold occurrences. lia. }
  destruct (lookupc_key_In (p :: l) v) as [H0|Hvin];
    [rewrite Hl in H0; lia|].
  rewrite Hl in Hvin. rewrite Heq in Hvin, Hs.
  apply in_app_or in Hvin. destruct Hvin as [H1|[H1|H1]].
  - rewrite Forall_forall in Hbefore. specialize (Hbefore _ H1).
    cbn in Hbefore. lia.
  - injection H1 as -> _. lra.
  - apply sorted_keys_split in Hs. unfold keys_above in Hs.
    rewrite Forall_forall in Hs. specialize (Hs _ H1). cbn in Hs. lra.
Qed.

Lemma findMostCommonDiff_unique_steps :
  findMostCommonDiff [0; 3; 4] = Ok 1.
Proof.
  unfold findMostCommonDiff. rewrite shifted_difference.
  cbn. rltb. cbn. f_equal. lra.
Qed.

Lemma findMostCommonDiff_smallest_of_ties_witness : 1 <= 3.
Proof.
  apply (findMostCommonDiff_smallest_of_ties [0; 3; 4] 1 3).
  - exact findMostCommonDiff_unique_steps.
  - cbn. left. lra.
  - unfold occurrences. cbn.
    repeat match goal with
           | |- context [Req_dec_T ?a ?b] => destruct (Req_dec_T a b)
           end; try lra; lia.
Defined.

(** ** Combining data sets: when the stacking fails *)

Lemma row_stack_all_decides (n : nat) (js : list (list R)) :
  forall (r0 : list R) (rows : list (list R)),
    length r0 = n ->
    (Forall (fun r => length r = n) js
     /\ row_stack_all (Some (Arr2 (r0 :: rows))) js
        = Ok (Some (Arr2 (r0 :: rows ++ js))))
    \/ (~ Forall (fun r => length r = n) js
        /\ row_stack_all (Some (Arr2 (r0 :: rows))) js
           = Raise (ValueError ShapeMismatch)).
Proof.
  induction js as [|j js IH]; intros r0 rows Hr0.
  - left. split; [constructor|]. cbn. rewrite app_nil_r. reflexivity.
  - cbn [row_stack_all]. unfold row_stack. cbn [hd]. rewrite Hr0.
    destruct (n =? length j)%nat eqn:E.
    + apply Nat.eqb_eq in E. cbn [bind].
      change ((r0 :: rows) ++ [j]) with (r0 :: (rows ++ [j])).
      destruct (IH r0 (rows ++ [j]) Hr0) as [[Hall Hok]|[Hnot Hraise]].
      * left. split; [constructor; [symmetry; exact E|exact Hall]|].
        rewrite Hok, <- app_assoc. reflexivity.
      * right. split; [|exact Hraise].
        intros Hall. apply Hnot. inversion Hall; assumption.
    + apply Nat.eqb_neq in E. right. split; [|reflexivity].
      intros Hall. inversion Hall; subst. congruence.
Qed.

(** X17.  With no collection empty, [combineDatasets] fails, with the shape
    error of the stacking, exactly when an intensity array differs in
    length from the first. *)
Theorem combineDatasets_shape_error (f t j : list R)
  (fs ts js : list (list R)) :
  combineDatasets (f :: fs) (t :: ts) (j :: js)
  = Raise (ValueError ShapeMismatch)
  <-> ~ Forall (fun r => length r = length j) js.
Proof.
  unfold combineDatasets. cbn [hstack_all]. rewrite hstack_all_concat.
  cbn [row_stack_all bind].
  destruct js as [|j' js].
  - cbn. split; [discriminate|]. intros H. exfalso. apply H. constructor.
  - cbn [row_stack_all]. unfold row_stack. cbn [hd].
    destruct (length j =? length j')%nat eqn:E.
    + apply Nat.eqb_eq in E. cbn [bind app].
      destruct (row_stack_all_decides (length j) js j [j'] eq_refl)
        as [[Hall Hok]|[Hnot Hraise]].
      * rewrite Hok. cbn [bind]. split; [discriminate|].
        intros H. exfalso. apply H. constructor; [symmetry; exact E|exact Hall].
      * rewrite Hraise. cbn [bind]. split; [|reflexivity].
        intros _ Hall. apply Hnot. inversion Hall; assumption.
    + apply Nat.eqb_neq in E. cbn [bind]. split; [|reflexivity].
      intros _ Hall. inversion Hall; subst. congruence.
Qed.

Lemma combineDatasets_shape_error_witness :
  combineDatasets [[1; 2; 3]] [[0; 1]] [[1; 2]; [3; 4]; [5]]
  = Raise (ValueError ShapeMismatch).
Proof.
  apply (proj2 (combineDatasets_shape_error
                  [1; 2; 3] [0; 1] [1; 2] [] [] [[3; 4]; [5]])).
  intros H. inversion H as [|? ? _ H']; subst.
  inversion H' as [|? ? Hlen _]; subst. discriminate Hlen.
Defined.

(** ** Staging the spectrogram: shapes *)

Lemma stack_four_times (r : list R) :
  stack_times 4 (Arr1 r) r = Ok (Arr2 [r; r; r; r; r]).
Proof.
  cbn [stack_times]. unfold row_stack. cbn [hd app bind].
  rewrite Nat.eqb_refl. cbn [bind hd app]. rewrite Nat.eqb_refl.
  cbn [bind hd app]. rewrite Nat.eqb_refl. cbn [bind hd app].
  rewrite Nat.eqb_refl. reflexivity.
Qed.

Lemma slice_prefix (y : list R) (m : Z) :
  (0 <= m <= Py.len y)%Z -> Py.slice y 0 m = firstn (Z.to_nat m) y.
Proof.
  intros Hm. unfold Py.slice, Py.clamp, Py.len in *.
  destruct (m <? 0)%Z eqn:E; [apply Z.ltb_lt in E; lia|].
  cbn [Z.ltb Z.compare].
  replace (Z.to_nat (Z.max 0 (Z.min (Z.of_nat (length y)) 0))) with 0%nat
    by lia.
  replace (Z.max 0 (Z.min (Z.of_nat (length y)) m)
           - Z.max 0 (Z.min (Z.of_nat (length y)) 0))%Z with m by lia.
  reflexivity.
Qed.

(** The result of [prepareSpectrogram] for a width that is not negative. *)
Lemma prepareSpectrogram_rows (maxiLength : option Z)
  (spectrum : spectrum) (timerange : Z * Z) :
  match maxiLength with Some m => (0 <= m)%Z | None => True end ->
  exists (width : Z) (row : list R),
    prepareSpectrogram maxiLength spectrum timerange
    = Ok (Some width,
          (fst spectrum,
           linspace5 (IZR (fst timerange)) (IZR (snd timerange)),
           Arr2 [row; row; row; row; row]))
    /\ width = match maxiLength with
               | Some m => m
               | None => Py.len (snd spectrum)
               end
    /\ Py.len row = width
    /\ row = firstn (Z.to_nat width)
               (snd spectrum
                ++ repeat 0 (Z.to_nat width - length (snd spectrum))).
Proof.
  intros Hm. unfold prepareSpectrogram.
  change (length (linspace5 (IZR (fst timerange)) (IZR (snd timerange))) - 1)%nat
    with 4%nat.
  destruct maxiLength as [m|].
  - destruct (Py.len (snd spectrum) <? m)%Z eqn:E.
    + apply Z.ltb_lt in E. rewrite stack_four_times. cbn [bind].
      exists m, (snd spectrum ++ repeat 0 (Z.to_nat (m - Py.len (snd spectrum)))).
      split; [reflexivity|]. split; [reflexivity|].
      unfold Py.len in *.
      assert (Hk : Z.to_nat (m - Z.of_nat (length (snd spectrum)))
                   = (Z.to_nat m - length (snd spectrum))%nat) by lia.
      rewrite Hk. split.
      * rewrite length_app, repeat_length. lia.
      * rewrite firstn_all2; [reflexivity|].
        rewrite length_app, repeat_length. lia.
    + apply Z.ltb_ge in E. rewrite stack_four_times. cbn [bind].
      exists m, (Py.slice (snd spectrum) 0 m).
      split; [reflexivity|]. split; [reflexivity|].
      rewrite slice_prefix by lia. unfold Py.len in *. split.
      * rewrite length_firstn. lia.
      * replace (Z.to_nat m - length (snd spectrum))%nat with 0%nat by lia.
        cbn [repeat]. rewrite app_nil_r. reflexivity.
  - rewrite stack_four_times. cbn [bind].
    exists (Py.len (snd spectrum)), (snd spectrum).
    split; [reflexivity|]. split; [reflexivity|]. split; [reflexivity|].
    unfold Py.len. rewrite Nat2Z.id, Nat.sub_diag. cbn [repeat].
    rewrite app_nil_r, firstn_all. reflexivity.
Qed.

(** X18.  Whatever width is stored, if it is not negative,
    [prepareSpectrogram] returns five equal rows of the width that is
    stored after the call, the power row padded with zeros or cut to that
    width; the stored width is the length of the power row if none was
    stored and is unchanged otherwise.  The frequency row is returned as it
    is, neither padded nor cut. *)
Theorem prepareSpectrogram_shape (maxiLength : option Z)
  (spectrum : spectrum) (timerange : Z * Z) :
  match maxiLength with Some m => (0 <= m)%Z | None => True end ->
  exists (width : Z) (row : list R),
    prepareSpectrogram maxiLength spectrum timerange
    = Ok (Some width,
          (fst spectrum,
           linspace5 (IZR (fst timerange)) (IZR (snd timerange)),
           Arr2 [row; row; row; row; row]))
    /\ width = match maxiLength with
               | Some m => m
               | None => Py.len (snd spectrum)
               end
    /\ Py.len row = width
    /\ row = firstn (Z.to_nat width)
               (snd spectrum
                ++ repeat 0 (Z.to_nat width - length (snd spectrum))).
Proof. apply prepareSpectrogram_rows. Qed.

Lemma prepareSpectrogram_shape_witness :
  exists (width : Z) (row : list R),
    prepareSpectrogram (Some 3%Z) ([1; 2], [7; 8]) (0, 4)%Z
    = Ok (Some width,
          ([1; 2], linspace5 0 4, Arr2 [row; row; row; row; row]))
    /\ width = 3%Z
    /\ Py.len row = width
    /\ row = firstn (Z.to_nat width) ([7; 8] ++ repeat 0 (Z.to_nat width - 2)).
Proof.
  apply (prepareSpectrogram_shape (Some 3%Z) ([1; 2], [7; 8]) (0, 4)%Z).
  cbn. lia.
Defined.

(** X19.  Two calls in a row, the first with no width stored: the width the
    first call stores is the length of its power row, the second call
    leaves it unchanged, and the rows of both results have that length, so
    that the two matrices can be stacked.  The frequency row of the second
    result keeps the length of the second spectrum. *)
Theorem prepareSpectrogram_twice (s1 s2 : spectrum) (tr1 tr2 : Z * Z)
  (st1 st2 : option Z) (f1 t1 f2 t2 : list R) (i1 i2 : ndarray) :
  prepareSpectrogram None s1 tr1 = Ok (st1, (f1, t1, i1)) ->
  prepareSpectrogram st1 s2 tr2 = Ok (st2, (f2, t2, i2)) ->
  st1 = Some (Py.len (snd s1)) /\ st2 = st1 /\ f2 = fst s2
  /\ exists r1 r2,
       i1 = Arr2 [r1; r1; r1; r1; r1] /\ i2 = Arr2 [r2; r2; r2; r2; r2]
       /\ length r1 = length (snd s1) /\ length r2 = length (snd s1).
Proof.
  intros H1 H2.
  destruct (prepareSpectrogram_rows None s1 tr1 I)
    as (w1 & r1 & E1 & Hw1 & Hl1 & _).
  rewrite E1 in H1. injection H1 as <- _ _ <-. subst w1.
  destruct (prepareSpectrogram_rows (Some (Py.len (snd s1))) s2 tr2)
    as (w2 & r2 & E2 & Hw2 & Hl2 & _).
  { unfold Py.len. lia. }
  rewrite E2 in H2. injection H2 as <- <- _ <-. subst w2.
  split; [reflexivity|]. split; [reflexivity|]. split; [reflexivity|].
  exists r1, r2. unfold Py.len in *. repeat split; lia.
Qed.

Lemma prepareSpectrogram_twice_witness :
  Some 2%Z = Some (Py.len [7; 8]) /\ Some 2%Z = Some 2%Z
  /\ [1; 2; 3] = fst ([1; 2; 3], [4; 5; 6])
  /\ exists r1 r2,
       Arr2 [[7; 8]; [7; 8]; [7; 8]; [7; 8]; [7; 8]]
       = Arr2 [r1; r1; r1; r1; r1]
       /\ Arr2 [[4; 5]; [4; 5]; [4; 5]; [4; 5]; [4; 5]]
          = Arr2 [r2; r2; r2; r2; r2]
       /\ length r1 = length (snd ([1; 2], [7; 8]))
       /\ length r2 = length (snd ([1; 2], [7; 8])).
Proof.
  apply (prepareSpectrogram_twice ([1; 2], [7; 8]) ([1; 2; 3], [4; 5; 6])
           (0, 4)%Z (4, 8)%Z (Some 2%Z) (Some 2%Z)
           [1; 2] (linspace5 0 4) [1; 2; 3] (linspace5 4 8)).
  - reflexivity.
  - reflexivity.
Defined.
